(** * gmqtt: the MQTT protocol core ([gmqtt/mqtt/protocol.py])

    A shallow embedding of [BaseMQTTProtocol] and [MQTTProtocol]: the frame
    decoder [_read_packet], the read loop, the send-side commands and the
    connection life cycle, with the theorems that relate them to the
    natural-language specification. *)

From Stdlib Require Import String.
From Stdlib Require Import ZArith List Bool Lia.
From Stdlib.Strings Require Import Byte.
Import ListNotations.
Open Scope Z_scope.

(** ** Python values used by the protocol *)

(** A Python [bytes] object. *)
Definition bytes := list byte.

(** Subscripting a [bytes] object gives an [int] in [0, 255]. *)
Definition int_of_byte (b : byte) : Z := Z.of_N (Byte.to_N b).

(** [len(data)]. *)
Definition len {A : Type} (l : list A) : Z := Z.of_nat (List.length l).

(** The exceptions that the modelled code can meet. *)
Inductive exn : Type :=
| IndexError
| AttributeError
| ConnectionResetError.

(** What running a piece of the program gives: a value, a raised exception, a
    task suspended at an [await] that the environment never resumes, or a loop
    model that was given too few iterations. *)
Inductive outcome (A : Type) : Type :=
| Ret (a : A)
| Raise (e : exn)
| Blocked
| OutOfFuel.
Arguments Ret {A} a.
Arguments Raise {A} e.
Arguments Blocked {A}.
Arguments OutOfFuel {A}.

(** [data[i]], checked: the model answers [None] for every subscript outside
    [0 <= i < len(data)].  Python raises [IndexError] past the ends and counts
    a negative subscript from the end; the model refuses both, so that a run
    which never meets [None] has only read inside the buffer. *)
Definition subscript (data : bytes) (i : Z) : option Z :=
  if (0 <=? i) && (i <? len data)
  then option_map int_of_byte (nth_error data (Z.to_nat i))
  else None.

(** [data[start:stop]], checked: [None] unless
    [0 <= start <= stop <= len(data)].  Python would clip such a slice without
    complaint; the model refuses it, so that a run which never meets [None] has
    only taken slices of the length it asked for. *)
Definition slice (data : bytes) (start stop : Z) : option bytes :=
  if (0 <=? start) && (start <=? stop) && (stop <=? len data)
  then Some (firstn (Z.to_nat (stop - start)) (skipn (Z.to_nat start) data))
  else None.

(** [buf[parsed_size:]] as the read loop takes it (Python's own clipping). *)
Definition drop (n : Z) (data : bytes) : bytes :=
  if n <? 0 then skipn (Z.to_nat (Z.max 0 (len data + n))) data
  else skipn (Z.to_nat n) data.

(** The values that the send-side methods hand back. *)
Inductive pyval : Type :=
| PyNone
| PyInt (z : Z)
| PyBytes (b : bytes)
| PyPair (first second : pyval).

(** A decoded control packet, the tuple [(command, packet)]. *)
Definition packet : Type := Z * bytes.

Module MQTTCommands.
(** Modelled from the spec: the command value of [constants.MQTTCommands]
    that the code names; the module itself is not among the sources.  The
    spec gives it in its example: the buffer [\xe0\x00] is "DISCONNECT,
    remaining length 0". *)
Definition DISCONNECT : Z := 224.
End MQTTCommands.

(** ** The collaborators *)

(** Modelled from the spec: the transport adapter held in [self._connection]
    (the class lives in [connection.py], which is not among the sources).  Its
    contract is [write(bytes)], [is_closing()], [close()], [read(max_bytes)];
    [put_package] hands a decoded packet to the inbound side.  The record keeps
    what the protocol did to it. *)
Record Connection : Type := mkConnection {
  closing : bool;              (* what [is_closing()] answers *)
  written : list bytes;        (* every [write(data)], oldest first *)
  packages : list packet;      (* every [put_package(pkg)], oldest first *)
  read_requests : list Z;      (* the [n] of every [read(n=n)], oldest first *)
  close_calls : nat            (* how many times [close()] was called *)
}.

Module Conn.
Definition is_closing (c : Connection) : bool := closing c.

Definition write (data : bytes) (c : Connection) : Connection :=
  mkConnection (closing c) (written c ++ [data]) (packages c)
               (read_requests c) (close_calls c).

Definition put_package (pkg : packet) (c : Connection) : Connection :=
  mkConnection (closing c) (written c) (packages c ++ [pkg])
               (read_requests c) (close_calls c).

(** Closing the transport makes it report that it is closing. *)
Definition close (c : Connection) : Connection :=
  mkConnection true (written c) (packages c)
               (read_requests c) (S (close_calls c)).

(** One completed transport read, as the environment decides it: the bytes
    handed back, and whether the transport had started closing by the time
    the read returned. *)
Record read_event : Type := mkReadEvent {
  ev_data : bytes;
  ev_closing : bool
}.

(** Issuing [read(n=n)]: the request is recorded at once. *)
Definition request_read (n : Z) (c : Connection) : Connection :=
  mkConnection (closing c) (written c) (packages c)
               (read_requests c ++ [n]) (close_calls c).

(** The read completing with event [ev]. *)
Definition complete_read (ev : read_event) (c : Connection) : Connection :=
  mkConnection (closing c || ev_closing ev) (written c) (packages c)
               (read_requests c) (close_calls c).
End Conn.

(** A background task as the protocol sees it through its handle. *)
Inductive task_state : Type :=
| TaskPending
| TaskCancelled
| TaskFinished.

(** [task.cancel()]: a finished task is left alone. *)
Definition cancel (t : task_state) : task_state :=
  match t with
  | TaskPending => TaskCancelled
  | TaskCancelled => TaskCancelled
  | TaskFinished => TaskFinished
  end.

Inductive log_level : Type := DEBUG | INFO | WARNING.

(** ** The protocol object and the objects it points to *)

(** The attributes of one [MQTTProtocol] instance, together with the store of
    the objects it refers to: queues and tasks are kept in stores and named by
    their position there, so that replacing a queue is seen to make a new
    object and to leave the old one as it was. *)
Record World : Type := mkWorld {
  _connection : option Connection;       (* [self._connection], [None] at first *)
  _connected : bool;                     (* [self._connected.is_set()] *)
  _queue : nat;                          (* [self._queue], a reference *)
  _read_loop_future : option nat;        (* [self._read_loop_future] *)
  queues : list (list packet);           (* every [asyncio.Queue] made so far *)
  tasks : list task_state;               (* every task made so far *)
  log : list (log_level * string)        (* what was handed to [logger] *)
}.

Definition set_conn (c : option Connection) (w : World) : World :=
  mkWorld c (_connected w) (_queue w) (_read_loop_future w)
          (queues w) (tasks w) (log w).

Definition set_connected (b : bool) (w : World) : World :=
  mkWorld (_connection w) b (_queue w) (_read_loop_future w)
          (queues w) (tasks w) (log w).

Definition set_future (f : option nat) (w : World) : World :=
  mkWorld (_connection w) (_connected w) (_queue w) f
          (queues w) (tasks w) (log w).

Definition set_tasks (ts : list task_state) (w : World) : World :=
  mkWorld (_connection w) (_connected w) (_queue w) (_read_loop_future w)
          (queues w) ts (log w).

Definition logger (lvl : log_level) (msg : string) (w : World) : World :=
  mkWorld (_connection w) (_connected w) (_queue w) (_read_loop_future w)
          (queues w) (tasks w) (log w ++ [(lvl, msg)]).

(** [asyncio.Queue()]: a new, empty queue at the next free reference. *)
Definition new_queue (w : World) : nat * World :=
  (List.length (queues w),
   mkWorld (_connection w) (_connected w) (_queue w) (_read_loop_future w)
           (queues w ++ [[]]) (tasks w) (log w)).

Definition set_queue (q : nat) (w : World) : World :=
  mkWorld (_connection w) (_connected w) q (_read_loop_future w)
          (queues w) (tasks w) (log w).

(** [asyncio.ensure_future(coro)]: a new pending task. *)
Definition ensure_future (w : World) : nat * World :=
  (List.length (tasks w), set_tasks (tasks w ++ [TaskPending]) w).

(** Replacing the entry at [i], leaving a list without such an entry alone. *)
Fixpoint update_nth {A : Type} (i : nat) (f : A -> A) (l : list A) : list A :=
  match l, i with
  | [], _ => []
  | x :: r, O => f x :: r
  | x :: r, S j => x :: update_nth j f r
  end.

(** A computation of the protocol: it runs in a world and leaves one. *)
Definition M (A : Type) : Type := World -> outcome A * World.

Definition ret {A : Type} (a : A) : M A := fun w => (Ret a, w).

Definition raise {A : Type} (e : exn) : M A := fun w => (Raise e, w).

Definition bind {A B : Type} (m : M A) (k : A -> M B) : M B :=
  fun w =>
    match m w with
    | (Ret a, w') => k a w'
    | (Raise e, w') => (Raise e, w')
    | (Blocked, w') => (Blocked, w')
    | (OutOfFuel, w') => (OutOfFuel, w')
    end.

Notation "x <- m ;; k" := (bind m (fun x => k))
  (at level 61, m at next level, right associativity).
Notation "m ;;; k" := (bind m (fun _ => k))
  (at level 61, right associativity).

(** A method call on [self._connection] that changes the connection:
    [AttributeError] while the attribute is still [None]. *)
Definition on_connection (f : Connection -> Connection) : M unit :=
  fun w =>
    match _connection w with
    | None => (Raise AttributeError, w)
    | Some c => (Ret tt, set_conn (Some (f c)) w)
    end.

(** [self._connection.is_closing()]. *)
Definition connection_is_closing : M bool :=
  fun w =>
    match _connection w with
    | None => (Raise AttributeError, w)
    | Some c => (Ret (Conn.is_closing c), w)
    end.

Definition do_log (lvl : log_level) (msg : string) : M unit :=
  fun w => (Ret tt, logger lvl msg w).

(** The [try: ... except ConnectionResetError: ...] of the read loop: only
    that exception is handled, every other outcome passes through. *)
Definition try_except_reset {A : Type} (body handler : M A) : M A :=
  fun w =>
    match body w with
    | (Raise ConnectionResetError, w') => handler w'
    | r => r
    end.

(** ** [class BaseMQTTProtocol] *)

Module BaseMQTTProtocol.

(** [__init__(self, buffer_size=2**16, loop=None)]: neither parameter is
    used in the body.  The attributes of the subclass are filled in by its
    own constructor; the stores start empty. *)
Definition __init__ (buffer_size : Z) : World :=
  mkWorld None false 0%nat None [] [] [].

Definition set_connection (conn : option Connection) : M unit :=
  fun w => (Ret tt, set_conn conn w).

Definition connection_made (connection : Connection) : M unit :=
  do_log INFO "[CONNECTION MADE]" ;;;
  (fun w => (Ret tt, set_conn (Some connection) w)) ;;;
  (fun w => (Ret tt, set_connected true w)).

Definition write_data (data : bytes) : M unit :=
  c <- connection_is_closing ;;
  if negb c then on_connection (Conn.write data)
  else do_log WARNING "[TRYING WRITE TO CLOSED SOCKET]".

Definition connection_lost (exc : option exn) : M unit :=
  (fun w => (Ret tt, set_connected false w)) ;;;
  match exc with
  | Some _ => do_log WARNING "[EXC: CONN LOST]"
  | None => do_log INFO "[CONN CLOSE NORMALLY]"
  end.

(** [async def read(self, n=-1)].  [ev] is what the environment answers to
    the awaited transport read, [None] when it never answers. *)
Definition read (n : Z) (ev : option Conn.read_event) : M bytes :=
  on_connection (Conn.request_read n) ;;;
  match ev with
  | None => fun w => (Blocked, w)
  | Some ev =>
      on_connection (Conn.complete_read ev) ;;;
      let bs := Conn.ev_data ev in
      match bs with
      | [] =>
          c <- connection_is_closing ;;
          if negb c then
            on_connection Conn.close ;;;
            raise ConnectionResetError
          else ret bs
      | _ :: _ => ret bs
      end
  end.

End BaseMQTTProtocol.

(** ** [class MQTTProtocol(BaseMQTTProtocol)] *)

Module MQTTProtocol.

(** How the inner [while True] of [_read_packet] is left. *)
Inductive header_exit : Type :=
| HeaderReturn (v : Z)                        (* a [return] of the method *)
| HeaderBreak (header_size payload_size : Z)  (* a [break] *)
| HeaderRaise (e : exn)
| HeaderFuel.

(** The inner loop of [_read_packet], which extracts the payload size; one
    unit of [fuel] is one iteration. *)
Fixpoint read_header (fuel : nat) (data : bytes)
         (raw_size data_size parsed_size : Z)
         (header_size mult payload_size : Z) : header_exit :=
  match fuel with
  | O => HeaderFuel
  | S fuel' =>
      if parsed_size + header_size >=? raw_size then
        (* not full header *)
        HeaderReturn parsed_size
      else
        match subscript data (parsed_size + header_size) with
        | None => HeaderRaise IndexError
        | Some payload_byte =>
            let payload_size := payload_size + Z.land payload_byte 127 * mult in
            if mult >? 2097152 then HeaderReturn (-1)
            else
              let mult := mult * 128 in
              let header_size := header_size + 1 in
              if header_size + payload_size >? data_size then
                (* not enough data *)
                HeaderBreak header_size payload_size
              else if Z.land payload_byte 128 =? 0 then
                HeaderBreak header_size payload_size
              else
                read_header fuel' data raw_size data_size parsed_size
                            header_size mult payload_size
        end
  end.

(** Iterations granted to the inner loop; [read_header_fuel] shows that it
    never needs more. *)
Definition header_fuel : nat := 5.

(** The outer [while True] of [_read_packet]; one unit of [fuel] is one
    iteration. *)
Fixpoint read_packet_loop (fuel : nat) (data : bytes)
         (raw_size parsed_size data_size : Z) (w : World)
  : outcome Z * World :=
  match fuel with
  | O => (OutOfFuel, w)
  | S fuel' =>
      (* try to extract packet data, minimum expected packet size is 2 *)
      if data_size <? 2 then (Ret parsed_size, w)
      else
        match read_header header_fuel data raw_size data_size parsed_size
                          1 1 0 with
        | HeaderReturn v => (Ret v, w)
        | HeaderRaise e => (Raise e, w)
        | HeaderFuel => (OutOfFuel, w)
        | HeaderBreak header_size payload_size =>
            (* check size once more *)
            if header_size + payload_size >? data_size then
              (Ret parsed_size, w)
            else
              match subscript data parsed_size with
              | None => (Raise IndexError, w)
              | Some command =>
                  let start := parsed_size + header_size in
                  let stop := start + payload_size in
                  match slice data start stop with
                  | None => (Raise IndexError, w)
                  | Some packet =>
                      let data_size := data_size - (header_size + payload_size) in
                      let parsed_size := parsed_size + (header_size + payload_size) in
                      match on_connection (Conn.put_package (command, packet)) w with
                      | (Ret _, w') =>
                          read_packet_loop fuel' data raw_size parsed_size
                                           data_size w'
                      | (Raise e, w') => (Raise e, w')
                      | (Blocked, w') => (Blocked, w')
                      | (OutOfFuel, w') => (OutOfFuel, w')
                      end
                  end
              end
        end
  end.

(** [_read_packet(self, data)].  Every iteration that goes round again has
    taken at least two bytes off [data_size], so [len(data)] iterations and
    one more are never used up ([read_packet_loop_total]). *)
Definition _read_packet (data : bytes) : M Z :=
  fun w =>
    let parsed_size := 0 in
    let raw_size := len data in
    let data_size := raw_size in
    read_packet_loop (S (List.length data)) data raw_size parsed_size
                     data_size w.

Definition max_buff_size : Z := 65536.

(** One pass through the body of the [while] of [_read_loop]: [Some buf] to
    go round again with that buffer, [None] after a [break]. *)
Definition read_loop_body (ev : option Conn.read_event) (buf : bytes)
  : M (option bytes) :=
  try_except_reset
    (bs <- BaseMQTTProtocol.read max_buff_size ev ;;
     let buf := buf ++ bs in
     parsed_size <- _read_packet buf ;;
     stop <- (if parsed_size =? -1 then ret true else connection_is_closing) ;;
     if (stop : bool) then
       do_log DEBUG "[RECV EMPTY] Connection will be reset automatically." ;;;
       ret None
     else ret (Some (drop parsed_size buf)))
    (do_log DEBUG "[RECV EMPTY] Connection will be reset automatically." ;;;
     ret None).

(** [while self._connected.is_set(): ...], run against the reads that the
    environment completes, in order; when they are used up the task stays
    suspended in its next read. *)
Fixpoint read_loop_while (script : list Conn.read_event) (buf : bytes)
  : M unit :=
  fun w =>
    if _connected w then
      match script with
      | [] => (read_loop_body None buf ;;; ret tt) w
      | ev :: rest =>
          (r <- read_loop_body (Some ev) buf ;;
           match r with
           | Some buf' => read_loop_while rest buf'
           | None => ret tt
           end) w
      end
    else (Ret tt, w).

(** [async def _read_loop(self)]: it waits for the gate first. *)
Definition _read_loop (script : list Conn.read_event) : M unit :=
  fun w =>
    if _connected w then read_loop_while script [] w
    else (Blocked, w).

(** [__init__(self, *args, **kwargs)]: the base constructor, then a new
    queue and no task handle.  ([self._disconnect] is set here and read
    nowhere in the class; it is left out.) *)
Definition __init__ (buffer_size : Z) : World :=
  let w := BaseMQTTProtocol.__init__ buffer_size in
  let (q, w) := new_queue w in
  let w := set_queue q w in
  set_future None w.

Definition connection_made (connection : Connection) : M unit :=
  BaseMQTTProtocol.connection_made connection ;;;
  (fun w => let (t, w) := ensure_future w in
            (Ret tt, set_future (Some t) w)).

Definition connection_lost (exc : option exn) : M unit :=
  BaseMQTTProtocol.connection_lost exc ;;;
  on_connection (Conn.put_package (MQTTCommands.DISCONNECT, [])) ;;;
  (fun w =>
     match _read_loop_future w with
     | Some t =>
         (Ret tt, set_future None (set_tasks (update_nth t cancel (tasks w)) w))
     | None => (Ret tt, w)
     end) ;;;
  (fun w => let (q, w) := new_queue w in (Ret tt, set_queue q w)).

(** *** The send side

    The packet builders of [package.py] and the constants they are called
    with are not among the sources: the methods are modelled for arbitrary
    builders.  A builder reads the protocol object it is passed and gives
    the framed bytes, and for the packets that are acknowledged also the
    message identifier it allocated. *)
Section Dispatcher.
Context {Login Subscription Topic Message Properties : Type}.
Variable LoginPackageFactor_build_package : Login -> World -> bytes.
Variable SubscribePacket_build_package : Subscription -> World -> Z * bytes.
Variable UnsubscribePacket_build_package : Topic -> World -> Z * bytes.
Variable SimpleCommandPacket_build_package : Z -> bytes.
Variable PublishPacket_build_package : Message -> World -> Z * bytes.
Variable DisconnectPacket_build_package : World -> Z -> Properties -> bytes.
Variable CommandWithMidPacket_build_package :
  Z -> Z -> bool -> Z -> Z -> bytes.
Variable PINGREQ : Z.      (* [MQTTCommands.PINGREQ] *)
Variable proto_ver : Z.    (* the class attribute, [MQTTv50] *)

Definition send_auth_package (login : Login) : M pyval :=
  fun w =>
    let pkg := LoginPackageFactor_build_package login w in
    (BaseMQTTProtocol.write_data pkg ;;; ret PyNone) w.

Definition send_subscribe_packet (subscription : Subscription) : M pyval :=
  fun w =>
    let '(mid, pkg) := SubscribePacket_build_package subscription w in
    (BaseMQTTProtocol.write_data pkg ;;; ret (PyInt mid)) w.

Definition send_unsubscribe_packet (topic : Topic) : M pyval :=
  fun w =>
    let '(mid, pkg) := UnsubscribePacket_build_package topic w in
    (BaseMQTTProtocol.write_data pkg ;;; ret (PyInt mid)) w.

Definition send_simple_command_packet (cmd : Z) : M pyval :=
  let pkg := SimpleCommandPacket_build_package cmd in
  BaseMQTTProtocol.write_data pkg ;;; ret PyNone.

Definition send_ping_request : M pyval :=
  send_simple_command_packet PINGREQ ;;; ret PyNone.

Definition send_publish (message : Message) : M pyval :=
  fun w =>
    let '(mid, pkg) := PublishPacket_build_package message w in
    (BaseMQTTProtocol.write_data pkg ;;;
     ret (PyPair (PyInt mid) (PyBytes pkg))) w.

Definition send_disconnect (reason_code : Z) (properties : Properties)
  : M pyval :=
  fun w =>
    let pkg := DisconnectPacket_build_package w reason_code properties in
    (BaseMQTTProtocol.write_data pkg ;;; ret (PyBytes pkg)) w.

Definition send_command_with_mid (cmd mid : Z) (dup : bool)
           (reason_code : Z) : M pyval :=
  let pkg := CommandWithMidPacket_build_package cmd mid dup reason_code
                                                proto_ver in
  BaseMQTTProtocol.write_data pkg ;;; ret PyNone.
End Dispatcher.

End MQTTProtocol.

(** ** Well-formed frames (the wire format) *)

(** One frame on the wire: the command byte, the bytes of the remaining-length
    field, the payload. *)
Record frame : Type := mkFrame {
  f_command : byte;
  f_length : list byte;
  f_payload : bytes
}.

Definition encode_frame (f : frame) : bytes :=
  f_command f :: f_length f ++ f_payload f.

Definition encode (fs : list frame) : bytes := concat (map encode_frame fs).

(** The packet that a frame carries. *)
Definition packet_of (f : frame) : packet :=
  (int_of_byte (f_command f), f_payload f).

(** The continuation bit (0x80) of a length byte. *)
Definition continues (b : byte) : bool :=
  negb (Z.land (int_of_byte b) 128 =? 0).

(** Every byte but the last has the continuation bit, the last has not. *)
Fixpoint length_field_ends (lb : list byte) : bool :=
  match lb with
  | [] => false
  | b :: r =>
      match r with
      | [] => negb (continues b)
      | _ :: _ => continues b && length_field_ends r
      end
  end.

(** The remaining-length field of the wire format: one to four bytes. *)
Definition is_length_field (lb : list byte) : bool :=
  (List.length lb <=? 4)%nat && length_field_ends lb.

(** The value of a length field whose first byte weighs [mult]: seven bits a
    byte, least significant first. *)
Fixpoint varint_value (mult : Z) (lb : list byte) : Z :=
  match lb with
  | [] => 0
  | b :: r => Z.land (int_of_byte b) 127 * mult + varint_value (mult * 128) r
  end.

(** A complete, well-formed packet: a length field of the wire format whose
    value is the number of payload bytes that follow. *)
Definition well_formed (f : frame) : bool :=
  is_length_field (f_length f)
  && (varint_value 1 (f_length f) =? len (f_payload f)).

(** Modelled from the spec: the encoder of a remaining length, which is with
    the packet builders and not among the sources.  It follows the wire
    format: seven bits a byte, least significant group first, the
    continuation bit on every byte but the last; [groups] bounds the number
    of bytes. *)
Fixpoint encode_length (groups : nat) (n : Z) : list byte :=
  match groups with
  | O => []
  | S g =>
      let low := n mod 128 in
      let rest := n / 128 in
      let b := if rest >? 0 then low + 128 else low in
      match Byte.of_N (Z.to_N b) with
      | None => []
      | Some x => if rest >? 0 then x :: encode_length g rest else [x]
      end
  end.

(** The frame of a packet, with the standard length field. *)
Definition frame_of (command : byte) (payload : bytes) : frame :=
  mkFrame command (encode_length 4 (len payload)) payload.

(** [part] is a beginning of [full], and shorter. *)
Definition proper_prefix (part full : bytes) : Prop :=
  exists more, more <> [] /\ part ++ more = full.

(** A length field as the decoder walks it: [mult] is the weight of its first
    byte. *)
Inductive varint_at : Z -> list byte -> Prop :=
| varint_last mult b :
    mult <= 2097152 -> continues b = false -> varint_at mult [b]
| varint_more mult b r :
    mult <= 2097152 -> continues b = true -> varint_at (mult * 128) r ->
    varint_at mult (b :: r).

(** ** The read loop reduced to its buffer handling *)

(** The packets that a run handed over, read off the world it left. *)
Definition delivered (w : World) : list packet :=
  match _connection w with
  | Some c => packages c
  | None => []
  end.

(** Feeding chunks the way the read loop does, but with no regard to an
    empty chunk being a reset: append the chunk, call [_read_packet], stop on
    the sentinel, else trim by the consumed count. *)
Fixpoint feed (chunks : list bytes) (buf : bytes) : M bytes :=
  match chunks with
  | [] => ret buf
  | chunk :: rest =>
      let buf := buf ++ chunk in
      parsed_size <- MQTTProtocol._read_packet buf ;;
      if parsed_size =? -1 then ret buf
      else feed rest (drop parsed_size buf)
  end.

(** The reads that hand [chunks] over, one each, the transport staying open. *)
Definition script_of (chunks : list bytes) : list Conn.read_event :=
  map (fun ch => Conn.mkReadEvent ch false) chunks.

(** ** Notions used to state the results *)

(** The world after [ps] more packets were handed to the connection. *)
Definition deliver (ps : list packet) (w : World) : World :=
  match _connection w with
  | Some c =>
      set_conn (Some (mkConnection (closing c) (written c) (packages c ++ ps)
                                   (read_requests c) (close_calls c))) w
  | None => w
  end.

(** The two ways in which the inner loop reports that the packet at
    [parsed_size] has not arrived in full. *)
Definition stalled (p ds : Z) (r : MQTTProtocol.header_exit) : Prop :=
  match r with
  | MQTTProtocol.HeaderReturn x => x = p
  | MQTTProtocol.HeaderBreak hs ps => hs + ps > ds
  | MQTTProtocol.HeaderRaise _ => False
  | MQTTProtocol.HeaderFuel => False
  end.

(** What the inner loop gives when [n] bytes are put in front of the buffer:
    a returned position moves by [n], the sentinel stays. *)
Definition shift_exit (n : Z) (r : MQTTProtocol.header_exit)
  : MQTTProtocol.header_exit :=
  match r with
  | MQTTProtocol.HeaderReturn x =>
      MQTTProtocol.HeaderReturn (if x <? 0 then x else n + x)
  | _ => r
  end.

(** The same for the result of the decoder. *)
Definition shift_result (n : Z) (r : outcome Z * World) : outcome Z * World :=
  match r with
  | (Ret v, w) => (Ret (if v <? 0 then v else n + v), w)
  | _ => r
  end.

(** [part], the bytes left in the buffer, is nothing or the beginning of the
    first of the frames [fs] that are still to be decoded. *)
Definition begins (part : bytes) (fs : list frame) : Prop :=
  part = []
  \/ exists f fb, fs = f :: fb /\ proper_prefix part (encode_frame f).

(** What a run of the read loop may have done to the world [w], whose
    connection was [c], to leave [w']: packets handed over, reads asked for,
    the transport closed at most once; nothing written, the gate, the task
    handle, the queue and the stores as they were. *)
Definition received_only (w : World) (c : Connection) (w' : World) : Prop :=
  exists c' ps,
    _connection w' = Some c'
    /\ packages c' = packages c ++ ps
    /\ written c' = written c
    /\ (close_calls c' = close_calls c
        \/ (close_calls c' = S (close_calls c) /\ closing c' = true))
    /\ (closing c = true -> closing c' = true)
    /\ _connected w' = _connected w
    /\ _read_loop_future w' = _read_loop_future w
    /\ _queue w' = _queue w
    /\ queues w' = queues w
    /\ tasks w' = tasks w.

(** The message that the read loop logs when it leaves. *)
Definition recv_empty : string :=
  "[RECV EMPTY] Connection will be reset automatically.".

(** ** Sample values *)

(** The first example of the specification: [\x30\x05hello]. *)
Definition hello_frame : frame :=
  mkFrame x30 [x05] [x68; x65; x6c; x6c; x6f].

(** The second one: [\xe0\x00]. *)
Definition disconnect_frame : frame := mkFrame xe0 [x00] [].

(** A length field that runs into a fifth byte. *)
Definition overlong : bytes := [x30; x80; x80; x80; x80; x01].

(** The two sample frames in a row, cut into four chunks. *)
Definition sample_chunks : list bytes :=
  [[x30]; [x05; x68]; [x65; x6c; x6c; x6f; xe0]; [x00]].

(** A buffer taken from arbitrary bytes: a complete packet, a packet whose
    length field passes the buffer, and more bytes. *)
Definition ragged : bytes := [xe0; x00; x30; xff; x01; x02].

(** An open transport that nothing was done to yet, and a protocol object
    just connected to it. *)
Definition conn0 : Connection := mkConnection false [] [] [] 0.

Definition world0 : World :=
  snd (MQTTProtocol.connection_made conn0 (MQTTProtocol.__init__ 65536)).


(** The same protocol object once its transport has been closed. *)
Definition closing_world : World :=
  set_conn (Some (Conn.close conn0)) world0.

(** A protocol object as constructed, before any connection. *)
Definition fresh_world : World := MQTTProtocol.__init__ 65536.

(** * Theorems *)

(** ** Buffers *)

Lemma len_nonneg {A : Type} (l : list A) : 0 <= len l.
Proof. unfold len. lia. Qed.

Lemma len_nil {A : Type} : len (@nil A) = 0.
Proof. reflexivity. Qed.

Lemma len_cons {A : Type} (x : A) (l : list A) : len (x :: l) = 1 + len l.
Proof. unfold len. simpl List.length. lia. Qed.

Lemma len_app {A : Type} (l1 l2 : list A) : len (l1 ++ l2) = len l1 + len l2.
Proof. unfold len. rewrite length_app. lia. Qed.

Lemma int_of_byte_range (b : byte) : 0 <= int_of_byte b < 256.
Proof.
  unfold int_of_byte. pose proof (Byte.to_N_bounded b) as H.
  lia.
Qed.

Lemma low7_range (z : Z) : 0 <= Z.land z 127 <= 127.
Proof.
  replace (Z.land z 127) with (z mod 128).
  - pose proof (Z.mod_pos_bound z 128) as H. lia.
  - symmetry. apply (Z.land_ones z 7). lia.
Qed.

Lemma skipn_all_len (data : bytes) (i : Z) :
  0 <= i -> skipn (Z.to_nat i) data = [] -> len data <= i.
Proof.
  intros Hi H. apply (f_equal (@List.length byte)) in H.
  rewrite length_skipn in H. simpl in H. unfold len. lia.
Qed.

Lemma skipn_cons_inv (data : bytes) (n : nat) (b : byte) (l : bytes) :
  skipn n data = b :: l ->
  nth_error data n = Some b /\ skipn (S n) data = l /\ (n < List.length data)%nat.
Proof.
  revert data. induction n as [|n IH]; intros [|x data] H; simpl in *;
    try discriminate.
  - inversion H; subst. repeat split; lia.
  - destruct (IH _ H) as (H1 & H2 & H3). repeat split; auto; lia.
Qed.

Lemma skipn_cons_subscript (data : bytes) (i : Z) (b : byte) (l : bytes) :
  0 <= i -> skipn (Z.to_nat i) data = b :: l ->
  subscript data i = Some (int_of_byte b)
  /\ skipn (Z.to_nat (i + 1)) data = l
  /\ i < len data.
Proof.
  intros Hi H. destruct (skipn_cons_inv _ _ _ _ H) as (H1 & H2 & H3).
  assert (Hlt : i < len data) by (unfold len; lia).
  repeat split; auto.
  - unfold subscript.
    replace ((0 <=? i) && (i <? len data)) with true
      by (symmetry; apply andb_true_iff; split;
          [apply Z.leb_le | apply Z.ltb_lt]; lia).
    rewrite H1. reflexivity.
  - replace (Z.to_nat (i + 1)) with (S (Z.to_nat i)) by lia. exact H2.
Qed.

Lemma subscript_in_range (data : bytes) (i : Z) :
  0 <= i < len data -> exists b, subscript data i = Some (int_of_byte b).
Proof.
  intros Hi. unfold subscript.
  replace ((0 <=? i) && (i <? len data)) with true
    by (symmetry; apply andb_true_iff; split;
        [apply Z.leb_le | apply Z.ltb_lt]; lia).
  destruct (nth_error data (Z.to_nat i)) as [b|] eqn:E.
  - exists b. reflexivity.
  - apply nth_error_None in E. unfold len in Hi. lia.
Qed.

Lemma subscript_app_shift (pre l : bytes) (i : Z) :
  0 <= i -> subscript (pre ++ l) (len pre + i) = subscript l i.
Proof.
  intros Hi. unfold subscript. rewrite len_app.
  pose proof (len_nonneg pre) as Hp.
  replace (0 <=? len pre + i) with true by (symmetry; apply Z.leb_le; lia).
  replace (0 <=? i) with true by (symmetry; apply Z.leb_le; lia).
  replace (len pre + i <? len pre + len l) with (i <? len l)
    by (destruct (Z.ltb_spec i (len l));
        destruct (Z.ltb_spec (len pre + i) (len pre + len l)); auto; lia).
  simpl. destruct (i <? len l); auto.
  replace (Z.to_nat (len pre + i)) with (List.length pre + Z.to_nat i)%nat
    by (unfold len; lia).
  rewrite nth_error_app2 by lia.
  replace (List.length pre + Z.to_nat i - List.length pre)%nat
    with (Z.to_nat i) by lia.
  reflexivity.
Qed.

Lemma slice_app_shift (pre l : bytes) (s e : Z) :
  0 <= s -> slice (pre ++ l) (len pre + s) (len pre + e) = slice l s e.
Proof.
  intros Hs. unfold slice. rewrite len_app.
  pose proof (len_nonneg pre) as Hp.
  replace (0 <=? len pre + s) with true by (symmetry; apply Z.leb_le; lia).
  replace (0 <=? s) with true by (symmetry; apply Z.leb_le; lia).
  replace (len pre + s <=? len pre + e) with (s <=? e)
    by (destruct (Z.leb_spec s e);
        destruct (Z.leb_spec (len pre + s) (len pre + e)); auto; lia).
  replace (len pre + e <=? len pre + len l) with (e <=? len l)
    by (destruct (Z.leb_spec e (len l));
        destruct (Z.leb_spec (len pre + e) (len pre + len l)); auto; lia).
  destruct (true && (s <=? e) && (e <=? len l)); auto.
  replace (len pre + e - (len pre + s)) with (e - s) by lia.
  replace (Z.to_nat (len pre + s)) with (List.length pre + Z.to_nat s)%nat
    by (unfold len; lia).
  rewrite skipn_app.
  rewrite skipn_all2 by lia.
  replace (List.length pre + Z.to_nat s - List.length pre)%nat
    with (Z.to_nat s) by lia.
  reflexivity.
Qed.

Lemma slice_of_skipn (data : bytes) (s : Z) (pl rest : bytes) :
  0 <= s -> s <= len data -> skipn (Z.to_nat s) data = pl ++ rest ->
  slice data s (s + len pl) = Some pl.
Proof.
  intros Hs Hle H. unfold slice.
  assert (Hlen : len data = s + len pl + len rest).
  { apply (f_equal (@List.length byte)) in H.
    rewrite length_skipn, length_app in H. unfold len in *. lia. }
  pose proof (len_nonneg pl). pose proof (len_nonneg rest).
  replace ((0 <=? s) && (s <=? s + len pl) && (s + len pl <=? len data))
    with true
    by (symmetry; repeat (apply andb_true_iff; split); apply Z.leb_le; lia).
  rewrite H. replace (s + len pl - s) with (len pl) by lia.
  unfold len. rewrite Nat2Z.id. rewrite firstn_app, firstn_all.
  replace (List.length pl - List.length pl)%nat with 0%nat by lia.
  simpl. rewrite app_nil_r. reflexivity.
Qed.

Lemma drop_app_len (pre l : bytes) : drop (len pre) (pre ++ l) = l.
Proof.
  unfold drop. pose proof (len_nonneg pre).
  replace (len pre <? 0) with false by (symmetry; apply Z.ltb_ge; lia).
  unfold len. rewrite Nat2Z.id. rewrite skipn_app, skipn_all.
  replace (List.length pre - List.length pre)%nat with 0%nat by lia.
  reflexivity.
Qed.

(** ** The inner loop of the decoder *)

Import MQTTProtocol.

(** Comparisons of the code, decided in a proof. *)
Ltac zcmp :=
  rewrite ?Z.geb_leb, ?Z.gtb_ltb;
  match goal with
  | |- context [?a <? ?b] => destruct (Z.ltb_spec a b)
  | |- context [?a <=? ?b] => destruct (Z.leb_spec a b)
  | |- context [?a =? ?b] => destruct (Z.eqb_spec a b)
  end.

(** The same for the condition of the first conditional of the goal. *)
Ltac zif :=
  rewrite ?Z.geb_leb, ?Z.gtb_ltb;
  match goal with
  | |- context [if ?c then _ else _] =>
      lazymatch c with
      | (?a <? ?b) => destruct (Z.ltb_spec a b)
      | (?a <=? ?b) => destruct (Z.leb_spec a b)
      | (?a =? ?b) => destruct (Z.eqb_spec a b)
      end
  end.

Lemma continues_true (b : byte) :
  continues b = true -> (Z.land (int_of_byte b) 128 =? 0) = false.
Proof. unfold continues. destruct (Z.land (int_of_byte b) 128 =? 0); auto. Qed.

Lemma continues_false (b : byte) :
  continues b = false -> (Z.land (int_of_byte b) 128 =? 0) = true.
Proof. unfold continues. destruct (Z.land (int_of_byte b) 128 =? 0); auto. Qed.

(** One iteration that finds a byte to read. *)
Lemma read_header_S fuel data ds p h mult v b l :
  0 <= p + h -> skipn (Z.to_nat (p + h)) data = b :: l ->
  read_header (S fuel) data (len data) ds p h mult v =
    if mult >? 2097152 then HeaderReturn (-1)
    else if h + 1 + (v + Z.land (int_of_byte b) 127 * mult) >? ds
    then HeaderBreak (h + 1) (v + Z.land (int_of_byte b) 127 * mult)
    else if Z.land (int_of_byte b) 128 =? 0
    then HeaderBreak (h + 1) (v + Z.land (int_of_byte b) 127 * mult)
    else read_header fuel data (len data) ds p (h + 1) (mult * 128)
                     (v + Z.land (int_of_byte b) 127 * mult).
Proof.
  intros Hi H. destruct (skipn_cons_subscript _ _ _ _ Hi H) as (Hs & _ & Hlt).
  cbn [read_header].
  replace (p + h >=? len data) with false by (zcmp; auto; lia).
  rewrite Hs. reflexivity.
Qed.

(** One iteration that finds the buffer used up. *)
Lemma read_header_end fuel data ds p h mult v :
  len data <= p + h ->
  read_header (S fuel) data (len data) ds p h mult v = HeaderReturn p.
Proof.
  intros H. cbn [read_header].
  replace (p + h >=? len data) with true by (zcmp; auto; lia).
  reflexivity.
Qed.

Lemma varint_value_nonneg lb : forall mult, 0 <= mult -> 0 <= varint_value mult lb.
Proof.
  induction lb as [|b r IH]; intros mult Hm; simpl; [lia|].
  pose proof (low7_range (int_of_byte b)). pose proof (IH (mult * 128)). nia.
Qed.

Lemma varint_at_length mult lb :
  varint_at mult lb -> (1 <= List.length lb)%nat.
Proof. intros H. inversion H; simpl; lia. Qed.

(** A length field of at most four bytes is one the decoder walks from weight
    one without overflow. *)
Lemma is_length_field_varint lb : is_length_field lb = true -> varint_at 1 lb.
Proof.
  unfold is_length_field. intros H. apply andb_true_iff in H as [Hl He].
  apply Nat.leb_le in Hl.
  assert (G : forall lb mult,
             mult * 128 ^ Z.of_nat (List.length lb) <= 2097152 * 128 -> 0 < mult ->
             length_field_ends lb = true -> varint_at mult lb).
  { clear. induction lb as [|b r IH]; intros mult Hm Hp He; [discriminate|].
    simpl in He.
    assert (Hpow : 0 < 128 ^ Z.of_nat (List.length r))
      by (apply Z.pow_pos_nonneg; lia).
    assert (Hb : mult <= 2097152).
    { simpl List.length in Hm. rewrite Nat2Z.inj_succ, Z.pow_succ_r in Hm by lia. nia. }
    destruct r as [|b' r'].
    - apply varint_last; auto. destruct (continues b); auto; discriminate.
    - apply andb_true_iff in He as [Hc He]. apply varint_more; auto.
      apply IH; auto; [|lia].
      simpl List.length in *. rewrite Nat2Z.inj_succ, Z.pow_succ_r in Hm by lia.
      lia. }
  apply G; auto; [|lia].
  assert (Hz : 0 <= Z.of_nat (List.length lb) <= 4) by lia.
  assert (Hmono : 128 ^ Z.of_nat (List.length lb) <= 128 ^ 4)
    by (apply Z.pow_le_mono_r; lia).
  change (128 ^ 4) with 268435456 in Hmono. lia.
Qed.

(** The inner loop on a complete length field whose packet fits the buffer:
    it stops just behind the field with its value. *)
Lemma read_header_complete lb mult :
  varint_at mult lb ->
  forall fuel data ds p h v rest,
    0 <= p + h -> 0 <= v -> 0 <= mult ->
    skipn (Z.to_nat (p + h)) data = lb ++ rest ->
    h + len lb + (v + varint_value mult lb) <= ds ->
    (List.length lb <= fuel)%nat ->
    read_header fuel data (len data) ds p h mult v
    = HeaderBreak (h + len lb) (v + varint_value mult lb).
Proof.
  induction 1 as [mult b Hm Hc | mult b r Hm Hc Hr IH];
    intros fuel data ds p h v rest Hp Hv Hmu Hsk Hfit Hfuel;
    (destruct fuel as [|fuel]; [simpl in Hfuel; lia|]);
    pose proof (low7_range (int_of_byte b)) as Hlow;
    simpl app in Hsk; rewrite (read_header_S _ _ _ _ _ _ _ _ _ Hp Hsk);
    simpl varint_value in *; rewrite ?len_cons, ?len_nil in *.
  - replace (mult >? 2097152) with false by (zcmp; auto; lia).
    replace (h + 1 + (v + Z.land (int_of_byte b) 127 * mult) >? ds) with false
      by (zcmp; auto; lia).
    rewrite (continues_false _ Hc). f_equal; lia.
  - pose proof (varint_value_nonneg r (mult * 128)) as Hnn.
    pose proof (len_nonneg r) as Hlr.
    replace (mult >? 2097152) with false by (zcmp; auto; lia).
    replace (h + 1 + (v + Z.land (int_of_byte b) 127 * mult) >? ds) with false
      by (zcmp; auto; nia).
    rewrite (continues_true _ Hc).
    destruct (skipn_cons_subscript _ _ _ _ Hp Hsk) as (_ & Hsk' & _).
    rewrite (IH fuel data ds p (h + 1) _ rest); try nia.
    + f_equal; lia.
    + replace (p + (h + 1)) with (p + h + 1) by lia. exact Hsk'.
    + simpl in Hfuel. lia.
Qed.

(** The inner loop on a buffer that ends inside a well-formed packet. *)
Lemma read_header_stall lb mult :
  varint_at mult lb ->
  forall fuel data ds p h v avail more payload,
    0 <= p + h -> 0 <= v -> 0 <= mult ->
    skipn (Z.to_nat (p + h)) data = avail ->
    len data = p + h + len avail ->
    ds = h + len avail ->
    avail ++ more = lb ++ payload -> more <> [] ->
    v + varint_value mult lb = len payload ->
    (List.length lb <= fuel)%nat ->
    stalled p ds (read_header fuel data (len data) ds p h mult v).
Proof.
  induction 1 as [mult b Hm Hc | mult b r Hm Hc Hr IH];
    intros fuel data ds p h v avail more payload Hp Hv Hmu Hsk Hlen Hds Happ
           Hmore Hval Hfuel;
    (destruct fuel as [|fuel]; [simpl in Hfuel; lia|]);
    pose proof (low7_range (int_of_byte b)) as Hlow;
    (destruct avail as [|a avail];
     [ rewrite len_nil in *; rewrite read_header_end by lia; reflexivity |]);
    simpl in Happ; injection Happ as -> Happ;
    rewrite (read_header_S _ _ _ _ _ _ _ _ _ Hp Hsk);
    simpl varint_value in *; rewrite ?len_cons in *;
    replace (mult >? 2097152) with false by (zcmp; auto; lia).
  - assert (Hpl : len payload = len avail + len more)
      by (rewrite <- Happ; apply len_app).
    assert (0 < len more)
      by (destruct more; [congruence | rewrite len_cons; pose proof (len_nonneg more); lia]).
    replace (h + 1 + (v + Z.land (int_of_byte b) 127 * mult) >? ds) with true
      by (zcmp; auto; lia).
    simpl. lia.
  - zif; [simpl; lia|].
    rewrite (continues_true _ Hc).
    destruct (skipn_cons_subscript _ _ _ _ Hp Hsk) as (_ & Hsk' & _).
    apply (IH fuel data ds p (h + 1) _ avail more payload);
      try assumption; try nia.
    + replace (p + (h + 1)) with (p + h + 1) by lia. exact Hsk'.
    + simpl in Hfuel. lia.
Qed.

(** What the inner loop can give at all: no exception, a [return] of the
    current position or of the sentinel, a [break] after at least one byte
    that was inside the buffer. *)
Lemma read_header_inv fuel :
  forall data ds p h mult v,
    0 <= p + h -> 0 <= v -> 0 <= mult ->
    match read_header fuel data (len data) ds p h mult v with
    | HeaderReturn x => x = p \/ x = -1
    | HeaderBreak hs ps => h < hs /\ v <= ps /\ p + hs <= len data
    | HeaderRaise _ => False
    | HeaderFuel => True
    end.
Proof.
  induction fuel as [|fuel IH]; intros data ds p h mult v Hp Hv Hm;
    cbn [read_header]; auto.
  zif; auto.
  destruct (subscript_in_range data (p + h)) as [b Hb]; [lia|]. rewrite Hb.
  pose proof (low7_range (int_of_byte b)) as Hlow.
  zif; auto.
  zif; [repeat split; nia|].
  zif; [repeat split; nia|].
  specialize (IH data ds p (h + 1) (mult * 128)
                 (v + Z.land (int_of_byte b) 127 * mult)).
  destruct (read_header fuel data (len data) ds p (h + 1) (mult * 128)
                        (v + Z.land (int_of_byte b) 127 * mult)) as [x|hs ps|e|];
    auto; try (apply IH; nia).
  destruct IH as (IH1 & IH2 & IH3); nia.
Qed.

(** The inner loop ends by itself: the multiplier passes 128 * 128 * 128
    after at most five bytes, whatever the buffer holds. *)
Lemma read_header_enough fuel :
  forall data raw ds p h mult v,
    (1 <= fuel)%nat -> 0 < mult ->
    mult * 128 ^ Z.of_nat fuel > 268435456 ->
    read_header fuel data raw ds p h mult v <> HeaderFuel.
Proof.
  induction fuel as [|fuel IH]; intros data raw ds p h mult v Hf Hm Hpow;
    [lia|].
  cbn [read_header].
  destruct (p + h >=? raw); [discriminate|].
  destruct (subscript data (p + h)); [|discriminate].
  zif; [discriminate|].
  zif; [discriminate|].
  zif; [discriminate|].
  rewrite Nat2Z.inj_succ, Z.pow_succ_r in Hpow by lia.
  apply IH; try nia.
  destruct fuel; [simpl in Hpow; lia | lia].
Qed.

Lemma read_header_fuel data raw ds p :
  read_header header_fuel data raw ds p 1 1 0 <> HeaderFuel.
Proof. apply read_header_enough; unfold header_fuel; simpl; lia. Qed.

(** More iterations than needed change nothing. *)
Lemma read_header_more fuel :
  forall extra data raw ds p h mult v,
    read_header fuel data raw ds p h mult v <> HeaderFuel ->
    read_header (fuel + extra) data raw ds p h mult v
    = read_header fuel data raw ds p h mult v.
Proof.
  induction fuel as [|fuel IH]; intros extra data raw ds p h mult v H;
    [simpl in H; congruence|].
  cbn [read_header Nat.add] in *.
  destruct (p + h >=? raw); auto.
  destruct (subscript data (p + h)); auto.
  destruct (mult >? 2097152); auto.
  destruct (h + 1 + (v + Z.land z 127 * mult) >? ds); auto.
  destruct (Z.land z 128 =? 0); auto.
Qed.

(** The inner loop does not depend on what lies before [parsed_size]. *)
Lemma read_header_shift fuel :
  forall pre l ds p h mult v,
    0 <= p -> 0 <= h ->
    read_header fuel (pre ++ l) (len (pre ++ l)) ds (len pre + p) h mult v
    = shift_exit (len pre) (read_header fuel l (len l) ds p h mult v).
Proof.
  induction fuel as [|fuel IH]; intros pre l ds p h mult v Hp Hh;
    cbn [read_header]; auto.
  rewrite len_app.
  replace (len pre + p + h >=? len pre + len l) with (p + h >=? len l)
    by (rewrite !Z.geb_leb;
        destruct (Z.leb_spec (len l) (p + h));
        destruct (Z.leb_spec (len pre + len l) (len pre + p + h)); auto; lia).
  destruct (p + h >=? len l).
  - simpl. replace (p <? 0) with false by (zcmp; auto; lia). reflexivity.
  - replace (len pre + p + h) with (len pre + (p + h)) by lia.
    rewrite subscript_app_shift by lia.
    destruct (subscript l (p + h)); auto.
    destruct (mult >? 2097152); auto.
    destruct (h + 1 + (v + Z.land z 127 * mult) >? ds); auto.
    destruct (Z.land z 128 =? 0); auto.
    rewrite <- len_app. apply IH; lia.
Qed.

(** ** The outer loop of the decoder *)

Lemma put_attached pkt w c :
  _connection w = Some c ->
  on_connection (Conn.put_package pkt) w = (Ret tt, deliver [pkt] w).
Proof. intros H. unfold on_connection, deliver. rewrite H. reflexivity. Qed.

Lemma deliver_attached ps w c :
  _connection w = Some c ->
  _connection (deliver ps w)
  = Some (mkConnection (closing c) (written c) (packages c ++ ps)
                       (read_requests c) (close_calls c)).
Proof. intros H. unfold deliver. rewrite H. reflexivity. Qed.

Lemma deliver_deliver ps1 ps2 w :
  deliver ps2 (deliver ps1 w) = deliver (ps1 ++ ps2) w.
Proof.
  unfold deliver. destruct (_connection w) as [c|] eqn:E; simpl.
  - rewrite app_assoc. reflexivity.
  - rewrite E. reflexivity.
Qed.

Lemma deliver_nil w : deliver [] w = w.
Proof.
  unfold deliver. destruct w as [[c|] ? ? ? ? ? ?]; simpl; auto.
  destruct c; unfold set_conn; simpl. rewrite app_nil_r. reflexivity.
Qed.

Lemma delivered_deliver ps w c :
  _connection w = Some c -> delivered (deliver ps w) = delivered w ++ ps.
Proof.
  intros H. unfold delivered. rewrite (deliver_attached _ _ _ H), H.
  reflexivity.
Qed.

(** Enough iterations for the outer loop are as good as any larger number. *)
Lemma read_packet_loop_fuel f1 :
  forall f2 data p ds w,
    0 <= p -> 0 <= ds -> ds < Z.of_nat f1 -> ds < Z.of_nat f2 ->
    read_packet_loop f1 data (len data) p ds w
    = read_packet_loop f2 data (len data) p ds w.
Proof.
  induction f1 as [|f1 IH]; intros f2 data p ds w Hp Hds H1 H2; [lia|].
  destruct f2 as [|f2]; [lia|].
  cbn [read_packet_loop].
  destruct (ds <? 2); auto.
  pose proof (read_header_inv header_fuel data ds p 1 1 0) as Hinv.
  destruct (read_header header_fuel data (len data) ds p 1 1 0)
    as [x|hs ps|e|]; auto.
  destruct Hinv as (Hhs & Hps & _); try lia.
  zif; auto.
  destruct (subscript data p); auto.
  destruct (slice data (p + hs) (p + hs + ps)); auto.
  destruct (on_connection (Conn.put_package (z, b)) w) as [[[]| | |] w']; auto.
  apply IH; lia.
Qed.

(** The decoder ends, raises nothing and answers the sentinel or a position
    inside the buffer; what it answers and the packets it hands over depend
    on the buffer alone, and those packets are all it changes in the world. *)
Lemma read_packet_loop_total fuel :
  forall data p ds,
    0 <= p -> 0 <= ds -> p + ds = len data -> ds < Z.of_nat fuel ->
    exists n ps,
      (n = -1 \/ p <= n <= len data)
      /\ forall w c,
          _connection w = Some c ->
          read_packet_loop fuel data (len data) p ds w = (Ret n, deliver ps w).
Proof.
  induction fuel as [|fuel IH]; intros data p ds Hp Hds Hlen Hf; [lia|].
  cbn [read_packet_loop].
  zif.
  { exists p, []. split; [lia|]. intros. rewrite deliver_nil. reflexivity. }
  pose proof (read_header_inv header_fuel data ds p 1 1 0) as Hinv.
  pose proof (read_header_fuel data (len data) ds p) as Hfuel.
  destruct (read_header header_fuel data (len data) ds p 1 1 0)
    as [x|hs ps|e|]; try congruence.
  - exists x, []. split; [lia|]. intros. rewrite deliver_nil. reflexivity.
  - destruct Hinv as (Hhs & Hps & Hin); try lia.
    zif.
    { exists p, []. split; [lia|]. intros. rewrite deliver_nil. reflexivity. }
    destruct (subscript_in_range data p) as [b Hb]; [lia|]. rewrite Hb.
    unfold slice.
    replace ((0 <=? p + hs) && (p + hs <=? p + hs + ps)
             && (p + hs + ps <=? len data)) with true
      by (symmetry; repeat (apply andb_true_iff; split); apply Z.leb_le; lia).
    destruct (IH data (p + (hs + ps)) (ds - (hs + ps)))
      as (n & ps' & Hn & Hrun); try lia.
    eexists n, (_ :: ps'). split; [lia|]. intros w c Hc.
    rewrite (put_attached _ _ _ Hc).
    rewrite (Hrun _ _ (deliver_attached _ _ _ Hc)), deliver_deliver.
    reflexivity.
  - destruct Hinv; lia.
Qed.

(** The decoder does not depend on what lies before [parsed_size]. *)
Lemma read_packet_loop_shift fuel :
  forall pre l p ds w,
    0 <= p ->
    read_packet_loop fuel (pre ++ l) (len (pre ++ l)) (len pre + p) ds w
    = shift_result (len pre) (read_packet_loop fuel l (len l) p ds w).
Proof.
  induction fuel as [|fuel IH]; intros pre l p ds w Hp;
    cbn [read_packet_loop]; auto.
  destruct (ds <? 2).
  { simpl. replace (p <? 0) with false by (zcmp; auto; lia). reflexivity. }
  rewrite read_header_shift by lia.
  pose proof (read_header_inv header_fuel l ds p 1 1 0) as Hinv.
  destruct (read_header header_fuel l (len l) ds p 1 1 0)
    as [x|hs ps|e|]; auto.
  destruct Hinv as (Hhs & Hps & _); try lia.
  cbn [shift_exit].
  destruct (hs + ps >? ds).
  { simpl. replace (p <? 0) with false by (zcmp; auto; lia). reflexivity. }
  replace (len pre + p) with (len pre + (p + 0)) at 1 by lia.
  rewrite subscript_app_shift by lia. replace (p + 0) with p by lia.
  destruct (subscript l p); auto.
  replace (len pre + p + hs + ps) with (len pre + (p + hs + ps)) by lia.
  replace (len pre + p + hs) with (len pre + (p + hs)) by lia.
  rewrite slice_app_shift by lia.
  destruct (slice l (p + hs) (p + hs + ps)); auto.
  destruct (on_connection (Conn.put_package (z, b)) w) as [[[]| | |] w']; auto.
  replace (len pre + p + (hs + ps)) with (len pre + (p + (hs + ps))) by lia.
  apply IH. lia.
Qed.

Lemma shift_result_0 r : shift_result 0 r = r.
Proof.
  destruct r as [[v| | |] w]; simpl; auto. destruct (v <? 0); reflexivity.
Qed.

Lemma shift_result_add a b r :
  0 <= a -> 0 <= b ->
  shift_result a (shift_result b r) = shift_result (a + b) r.
Proof.
  intros Ha Hb. destruct r as [[v| | |] w]; simpl; auto.
  destruct (Z.ltb_spec v 0) as [Hv|Hv].
  - replace (v <? 0) with true by (symmetry; apply Z.ltb_lt; lia). reflexivity.
  - replace (b + v <? 0) with false by (symmetry; apply Z.ltb_ge; lia).
    do 2 f_equal. lia.
Qed.

(** ** The decoder on well-formed frames *)

Lemma well_formed_inv f :
  well_formed f = true ->
  varint_at 1 (f_length f)
  /\ varint_value 1 (f_length f) = len (f_payload f)
  /\ (1 <= List.length (f_length f) <= 4)%nat.
Proof.
  unfold well_formed. intros H. apply andb_true_iff in H as [Hl Hv].
  apply Z.eqb_eq in Hv. pose proof (is_length_field_varint _ Hl) as Hvar.
  pose proof (varint_at_length _ _ Hvar).
  unfold is_length_field in Hl. apply andb_true_iff in Hl as [Hl _].
  apply Nat.leb_le in Hl. auto.
Qed.

Lemma len_encode_frame f :
  len (encode_frame f) = 1 + len (f_length f) + len (f_payload f).
Proof. unfold encode_frame. rewrite len_cons, len_app. lia. Qed.

Lemma encode_cons f fs : encode (f :: fs) = encode_frame f ++ encode fs.
Proof. reflexivity. Qed.

Lemma encode_app fs1 fs2 : encode (fs1 ++ fs2) = encode fs1 ++ encode fs2.
Proof. unfold encode. rewrite map_app, concat_app. reflexivity. Qed.

(** One complete frame at the head of the buffer: its packet is handed over
    and decoding goes on behind it as it would on the rest alone. *)
Lemma read_packet_frame f rest w c :
  well_formed f = true -> _connection w = Some c ->
  _read_packet (encode_frame f ++ rest) w
  = shift_result (len (encode_frame f))
                 (_read_packet rest (deliver [packet_of f] w)).
Proof.
  intros Hwf Hc. destruct (well_formed_inv _ Hwf) as (Hvar & Hval & Hl1 & Hl4).
  pose proof (len_encode_frame f) as Hlf.
  destruct f as [cmd lb payload]. cbn [f_command f_length f_payload] in *.
  assert (1 <= len lb) by (unfold len; lia).
  pose proof (len_nonneg payload). pose proof (len_nonneg rest).
  unfold _read_packet.
  remember (encode_frame (mkFrame cmd lb payload) ++ rest) as data eqn:Hdata.
  assert (Hlen : len data = 1 + len lb + len payload + len rest)
    by (rewrite Hdata, len_app, Hlf; lia).
  assert (Hsk1 : skipn (Z.to_nat (0 + 1)) data = lb ++ (payload ++ rest)).
  { rewrite Hdata. unfold encode_frame. simpl. rewrite app_assoc. reflexivity. }
  assert (Hsk0 : skipn (Z.to_nat 0) data
                 = cmd :: (lb ++ payload) ++ rest)
    by (rewrite Hdata; reflexivity).
  assert (Hsk2 : skipn (Z.to_nat (0 + (1 + len lb))) data = payload ++ rest).
  { rewrite Hdata. unfold encode_frame.
    replace (Z.to_nat (0 + (1 + len lb))) with (S (List.length lb))
      by (unfold len; lia).
    simpl. rewrite <- app_assoc, skipn_app, skipn_all.
    replace (List.length lb - List.length lb)%nat with 0%nat by lia.
    reflexivity. }
  cbn [read_packet_loop].
  replace (len data <? 2) with false by (zcmp; auto; lia).
  rewrite (read_header_complete _ _ Hvar header_fuel data (len data) 0 1 0
                                (payload ++ rest));
    try lia; auto; [|unfold header_fuel; lia].
  rewrite Hval.
  replace (1 + len lb + (0 + len payload) >? len data) with false
    by (zcmp; auto; lia).
  destruct (skipn_cons_subscript data 0 _ _ ltac:(lia) Hsk0) as (Hcmd & _ & _).
  rewrite Hcmd.
  replace (0 + (1 + len lb) + (0 + len payload))
    with (0 + (1 + len lb) + len payload) by lia.
  rewrite (slice_of_skipn data (0 + (1 + len lb)) payload rest) by (auto; lia).
  rewrite (put_attached _ _ _ Hc).
  rewrite (read_packet_loop_fuel _ (S (List.length rest)))
    by (try (unfold len in *; lia)).
  replace (len data - (1 + len lb + (0 + len payload))) with (len rest) by lia.
  replace (0 + (1 + len lb + (0 + len payload)))
    with (len (encode_frame (mkFrame cmd lb payload)) + 0)
    by (rewrite Hlf; lia).
  rewrite Hdata. apply read_packet_loop_shift. lia.
Qed.

(** Complete frames at the head of the buffer. *)
Lemma read_packet_frames fs :
  forall tail w c,
    forallb well_formed fs = true -> _connection w = Some c ->
    _read_packet (encode fs ++ tail) w
    = shift_result (len (encode fs))
                   (_read_packet tail (deliver (map packet_of fs) w)).
Proof.
  induction fs as [|f fs IH]; intros tail w c Hwf Hc.
  - simpl. rewrite deliver_nil. change (len (encode [])) with 0.
    rewrite shift_result_0. reflexivity.
  - simpl in Hwf. apply andb_true_iff in Hwf as [Hf Hfs].
    rewrite encode_cons, <- app_assoc.
    rewrite (read_packet_frame _ _ _ _ Hf Hc).
    rewrite (IH _ _ _ Hfs (deliver_attached _ _ _ Hc)).
    rewrite shift_result_add by apply len_nonneg.
    rewrite deliver_deliver, len_app. reflexivity.
Qed.

(** A buffer that ends inside a well-formed packet: nothing is taken. *)
Lemma read_packet_partial f part w :
  well_formed f = true -> proper_prefix part (encode_frame f) ->
  _read_packet part w = (Ret 0, w).
Proof.
  intros Hwf (more & Hmore & Happ).
  destruct (well_formed_inv _ Hwf) as (Hvar & Hval & Hl1 & Hl4).
  destruct f as [cmd lb payload]. unfold encode_frame in Happ.
  cbn [f_command f_length f_payload] in *.
  unfold _read_packet. cbn [read_packet_loop].
  destruct part as [|a avail]; [reflexivity|].
  simpl in Happ. injection Happ as -> Happ.
  zif; [reflexivity|].
  pose proof (read_header_stall _ _ Hvar header_fuel (cmd :: avail)
                (len (cmd :: avail)) 0 1 0 avail more payload) as Hst.
  rewrite len_cons in *.
  destruct (read_header header_fuel (cmd :: avail) (1 + len avail)
                        (1 + len avail) 0 1 1 0) as [x|hs ps|e|].
  - simpl in Hst. rewrite Hst; auto; try lia. unfold header_fuel; lia.
  - simpl in Hst.
    replace (hs + ps >? 1 + len avail) with true; [reflexivity|].
    symmetry. apply Z.gtb_lt.
    assert (hs + ps > 1 + len avail)
      by (apply Hst; auto; try lia; unfold header_fuel; lia).
    lia.
  - exfalso. apply Hst; auto; try lia. unfold header_fuel; lia.
  - exfalso. apply Hst; auto; try lia. unfold header_fuel; lia.
Qed.

(** ** The standard encoding is well formed *)

Lemma byte_bits (x : byte) :
  Z.land (int_of_byte x) 127 = int_of_byte x mod 128
  /\ continues x = (128 <=? int_of_byte x).
Proof. destruct x; vm_compute; split; reflexivity. Qed.

Lemma byte_of_int (b : Z) :
  0 <= b < 256 ->
  exists x, Byte.of_N (Z.to_N b) = Some x /\ int_of_byte x = b.
Proof.
  intros Hb. destruct (Byte.of_N (Z.to_N b)) as [x|] eqn:E.
  - exists x. split; auto. apply Byte.to_of_N in E. unfold int_of_byte.
    rewrite E. lia.
  - apply Byte.of_N_None_iff in E. lia.
Qed.

Lemma encode_length_spec groups :
  forall n mult,
    (1 <= groups)%nat -> 0 <= n < 128 ^ Z.of_nat groups ->
    length_field_ends (encode_length groups n) = true
    /\ (List.length (encode_length groups n) <= groups)%nat
    /\ varint_value mult (encode_length groups n) = n * mult.
Proof.
  induction groups as [|g IH]; intros n mult Hg Hn.
  - lia.
  - rewrite Nat2Z.inj_succ, Z.pow_succ_r in Hn by lia.
    cbn [encode_length].
    pose proof (Z.mod_pos_bound n 128 ltac:(lia)) as Hlow.
    pose proof (Z.div_mod n 128 ltac:(lia)) as Hdm.
    assert (Hrest : 0 <= n / 128 < 128 ^ Z.of_nat g)
      by (split; [apply Z.div_pos; lia | apply Z.div_lt_upper_bound; lia]).
    rewrite Z.gtb_ltb. destruct (Z.ltb_spec 0 (n / 128)) as [Hpos|Hzero].
    + destruct (byte_of_int (n mod 128 + 128)) as (x & -> & Hx); [lia|].
      assert (Hg' : (1 <= g)%nat)
        by (destruct g; [simpl in Hrest; lia | lia]).
      destruct (IH (n / 128) (mult * 128) Hg' Hrest) as (He & Hl & Hv).
      destruct (byte_bits x) as [Hland Hcont].
      cbn [length_field_ends varint_value List.length].
      destruct (encode_length g (n / 128)) as [|y r] eqn:Eenc;
        [simpl in He; discriminate|].
      rewrite Hcont, Hland, Hx, Hv.
      replace (128 <=? n mod 128 + 128) with true
        by (symmetry; apply Z.leb_le; lia).
      replace ((n mod 128 + 128) mod 128) with (n mod 128)
        by (rewrite <- (Z.mod_small (n mod 128) 128) at 1 by lia;
            rewrite <- Z.add_mod_idemp_r by lia;
            rewrite Z.mod_same by lia; rewrite Z.add_0_r;
            rewrite Z.mod_mod by lia; reflexivity).
      split; [exact He|]. split; [lia|]. nia.
    + destruct (byte_of_int (n mod 128)) as (x & -> & Hx); [lia|].
      destruct (byte_bits x) as [Hland Hcont].
      cbn [length_field_ends varint_value List.length].
      rewrite Hcont, Hland, Hx.
      replace (128 <=? n mod 128) with false
        by (symmetry; apply Z.leb_gt; lia).
      rewrite Z.mod_mod by lia.
      assert (Hn0 : n mod 128 = n) by lia.
      split; [reflexivity|]. split; [lia|]. rewrite Hn0. lia.
Qed.

(** Every packet whose payload the four-byte length field can count has a
    well-formed frame. *)
Lemma frame_of_well_formed command payload :
  len payload <= 268435455 -> well_formed (frame_of command payload) = true.
Proof.
  intros Hlen. pose proof (len_nonneg payload).
  destruct (encode_length_spec 4 (len payload) 1) as (He & Hl & Hv);
    [lia | change (128 ^ Z.of_nat 4) with 268435456; lia |].
  unfold well_formed, frame_of, is_length_field.
  cbn [f_length f_payload]. rewrite He, Hv.
  apply andb_true_iff. split.
  - apply andb_true_iff. split; auto. apply Nat.leb_le. exact Hl.
  - apply Z.eqb_eq. lia.
Qed.

(** ** The decoder: claims *)

(** The inner loop on a length field whose first four bytes all carry the
    continuation bit: the fifth byte is read, and the sentinel returned, only
    if the length gathered from the first four leaves the packet inside the
    buffer; otherwise the loop is left for lack of data. *)
Lemma read_header_overlong cmd b1 b2 b3 b4 b5 rest ds :
  continues b1 = true -> continues b2 = true ->
  continues b3 = true -> continues b4 = true ->
  (5 + varint_value 1 [b1; b2; b3; b4] <= ds ->
   read_header header_fuel (cmd :: b1 :: b2 :: b3 :: b4 :: b5 :: rest)
               (len (cmd :: b1 :: b2 :: b3 :: b4 :: b5 :: rest)) ds 0 1 1 0
   = HeaderReturn (-1))
  /\ (ds < 5 + varint_value 1 [b1; b2; b3; b4] ->
      exists hs ps,
        read_header header_fuel (cmd :: b1 :: b2 :: b3 :: b4 :: b5 :: rest)
                    (len (cmd :: b1 :: b2 :: b3 :: b4 :: b5 :: rest)) ds 0 1 1 0
        = HeaderBreak hs ps /\ hs + ps > ds).
Proof.
  intros H1 H2 H3 H4.
  pose proof (low7_range (int_of_byte b1)).
  pose proof (low7_range (int_of_byte b2)).
  pose proof (low7_range (int_of_byte b3)).
  pose proof (low7_range (int_of_byte b4)).
  unfold header_fuel. cbn [varint_value].
  erewrite read_header_S; [|lia|reflexivity].
  rewrite (continues_true _ H1).
  erewrite read_header_S; [|lia|reflexivity].
  rewrite (continues_true _ H2).
  erewrite read_header_S; [|lia|reflexivity].
  rewrite (continues_true _ H3).
  erewrite read_header_S; [|lia|reflexivity].
  rewrite (continues_true _ H4).
  erewrite read_header_S; [|lia|reflexivity].
  split; intros Hds.
  - repeat (zif; try lia). reflexivity.
  - repeat (zif; try lia); eexists _, _; (split; [reflexivity|lia]).
Qed.

(** C1, as the code has it.  A buffer that starts with a command byte and a
    length field whose first four bytes all carry the continuation bit, and
    that holds a fifth length byte, is answered with the malformed-stream
    sentinel exactly when the length gathered from the low seven bits of the
    first four bytes, plus the five header bytes, does not pass the length of
    the buffer; when it does pass it the decoder answers 0, as for a packet
    that has not arrived in full.  In both cases nothing is handed over. *)
Theorem overlong_varint_sentinel_when_buffered cmd b1 b2 b3 b4 b5 rest w :
  continues b1 = true -> continues b2 = true ->
  continues b3 = true -> continues b4 = true ->
  (5 + varint_value 1 [b1; b2; b3; b4]
   <= len (cmd :: b1 :: b2 :: b3 :: b4 :: b5 :: rest) ->
   _read_packet (cmd :: b1 :: b2 :: b3 :: b4 :: b5 :: rest) w = (Ret (-1), w))
  /\ (len (cmd :: b1 :: b2 :: b3 :: b4 :: b5 :: rest)
      < 5 + varint_value 1 [b1; b2; b3; b4] ->
      _read_packet (cmd :: b1 :: b2 :: b3 :: b4 :: b5 :: rest) w = (Ret 0, w)).
Proof.
  intros H1 H2 H3 H4.
  destruct (read_header_overlong cmd b1 b2 b3 b4 b5 rest
              (len (cmd :: b1 :: b2 :: b3 :: b4 :: b5 :: rest)) H1 H2 H3 H4)
    as [Hbig Hsmall].
  assert (Hlen : 6 <= len (cmd :: b1 :: b2 :: b3 :: b4 :: b5 :: rest))
    by (rewrite !len_cons; pose proof (len_nonneg rest); lia).
  unfold _read_packet. cbn [read_packet_loop].
  replace (len (cmd :: b1 :: b2 :: b3 :: b4 :: b5 :: rest) <? 2) with false
    by (zcmp; auto; lia).
  split; intros Hds.
  - rewrite (Hbig Hds). reflexivity.
  - destruct (Hsmall Hds) as (hs & ps & -> & Hgt).
    replace (hs + ps >? len (cmd :: b1 :: b2 :: b3 :: b4 :: b5 :: rest))
      with true by (symmetry; apply Z.gtb_lt; lia).
    reflexivity.
Qed.

Lemma overlong_varint_sentinel_when_buffered_witness :
  _read_packet overlong world0 = (Ret (-1), world0).
Proof.
  apply (proj1 (overlong_varint_sentinel_when_buffered
                  x30 x80 x80 x80 x80 x01 [] world0
                  eq_refl eq_refl eq_refl eq_refl)).
  vm_compute. discriminate.
Defined.

(** C1, as the specification states it, fails: five length bytes that all
    carry the continuation bit, and no sentinel.  The first length byte
    already announces more payload than the six-byte buffer holds, so the
    decoder waits for more data. *)
Lemma overlong_varint_without_sentinel :
  forallb continues [xff; xff; xff; xff; xff] = true
  /\ _read_packet [x30; xff; xff; xff; xff; xff] world0 = (Ret 0, world0)
  /\ fst (_read_packet [x30; xff; xff; xff; xff; xff] world0) <> Ret (-1).
Proof.
  split; [reflexivity|]. split; [reflexivity|].
  vm_compute. discriminate.
Qed.

(** C4.  A buffer made of complete well-formed packets followed by a proper
    beginning of one more well-formed packet (nothing at all, a lone command
    byte, a length field cut short, or a payload cut short): the decoder
    hands over the complete packets in order and nothing else, answers their
    total length in bytes, and does not answer the sentinel. *)
Theorem read_packet_complete_then_partial fs f part w c :
  forallb well_formed fs = true -> well_formed f = true ->
  proper_prefix part (encode_frame f) -> _connection w = Some c ->
  exists w',
    _read_packet (encode fs ++ part) w = (Ret (len (encode fs)), w')
    /\ w' = deliver (map packet_of fs) w
    /\ delivered w' = delivered w ++ map packet_of fs
    /\ len (encode fs) <> -1.
Proof.
  intros Hfs Hf Hpart Hc. eexists. split; [|split; [reflexivity|split]].
  - rewrite (read_packet_frames _ _ _ _ Hfs Hc).
    rewrite (read_packet_partial _ _ _ Hf Hpart). simpl.
    rewrite Z.add_0_r. reflexivity.
  - apply (delivered_deliver _ _ _ Hc).
  - pose proof (len_nonneg (encode fs)). lia.
Qed.

Lemma read_packet_complete_then_partial_witness :
  exists w',
    _read_packet (encode [hello_frame; disconnect_frame] ++ [x30; x05; x68]) world0
    = (Ret (len (encode [hello_frame; disconnect_frame])), w')
    /\ w' = deliver (map packet_of [hello_frame; disconnect_frame]) world0
    /\ delivered w'
       = delivered world0 ++ map packet_of [hello_frame; disconnect_frame]
    /\ len (encode [hello_frame; disconnect_frame]) <> -1.
Proof.
  apply (read_packet_complete_then_partial
           [hello_frame; disconnect_frame] hello_frame [x30; x05; x68]
           world0 conn0).
  - reflexivity.
  - reflexivity.
  - exists [x65; x6c; x6c; x6f]. split; [discriminate | reflexivity].
  - reflexivity.
Defined.

(** C9.  On every buffer the decoder ends and raises nothing: every
    subscript and every slice it takes lies inside the buffer (the model
    raises [IndexError] for any that does not), the inner loop never uses up
    its five iterations nor the outer loop its [len(data) + 1], more
    iterations would change nothing, and the answer is the sentinel or a
    count between 0 and the length of the buffer.  The protocol must hold a
    connection, since complete packets are handed to it. *)
Theorem read_packet_total data w c :
  _connection w = Some c ->
  exists n ps,
    _read_packet data w = (Ret n, deliver ps w)
    /\ (n = -1 \/ 0 <= n <= len data)
    /\ (forall fuel,
           (List.length data < fuel)%nat ->
           read_packet_loop fuel data (len data) 0 (len data) w
           = _read_packet data w)
    /\ (forall ds p extra,
           read_header (header_fuel + extra) data (len data) ds p 1 1 0
           = read_header header_fuel data (len data) ds p 1 1 0).
Proof.
  intros Hc.
  destruct (read_packet_loop_total (S (List.length data)) data 0 (len data))
    as (n & ps & Hn & Hrun); try (unfold len; lia).
  exists n, ps. split; [|split; [|split]].
  - apply (Hrun _ _ Hc).
  - exact Hn.
  - intros fuel Hfuel. unfold _read_packet.
    apply read_packet_loop_fuel; unfold len; lia.
  - intros ds p extra. apply read_header_more, read_header_fuel.
Qed.

Lemma read_packet_total_witness :
  exists n ps,
    _read_packet (encode [hello_frame] ++ overlong) world0
    = (Ret n, deliver ps world0)
    /\ (n = -1 \/ 0 <= n <= len (encode [hello_frame] ++ overlong))
    /\ (forall fuel,
           (List.length (encode [hello_frame] ++ overlong) < fuel)%nat ->
           read_packet_loop fuel (encode [hello_frame] ++ overlong)
                            (len (encode [hello_frame] ++ overlong)) 0
                            (len (encode [hello_frame] ++ overlong)) world0
           = _read_packet (encode [hello_frame] ++ overlong) world0)
    /\ (forall ds p extra,
           read_header (header_fuel + extra) (encode [hello_frame] ++ overlong)
                       (len (encode [hello_frame] ++ overlong)) ds p 1 1 0
           = read_header header_fuel (encode [hello_frame] ++ overlong)
                         (len (encode [hello_frame] ++ overlong)) ds p 1 1 0).
Proof.
  apply (read_packet_total (encode [hello_frame] ++ overlong) world0 conn0).
  reflexivity.
Defined.

(** C10.  When the decoder answers the sentinel for what follows some
    complete well-formed packets, those packets have been handed to the
    connection all the same, in order and behind what it held before: the
    sentinel takes nothing back. *)
Theorem sentinel_keeps_emitted fs tail w c :
  forallb well_formed fs = true -> _connection w = Some c ->
  fst (_read_packet tail w) = Ret (-1) ->
  exists later,
    _read_packet (encode fs ++ tail) w
    = (Ret (-1), deliver (map packet_of fs ++ later) w)
    /\ delivered (deliver (map packet_of fs ++ later) w)
       = delivered w ++ map packet_of fs ++ later.
Proof.
  intros Hfs Hc Htail.
  destruct (read_packet_loop_total (S (List.length tail)) tail 0 (len tail))
    as (n & ps & Hn & Hrun); try (unfold len; lia).
  assert (n = -1) as ->.
  { unfold _read_packet in Htail. rewrite (Hrun _ _ Hc) in Htail.
    simpl in Htail. congruence. }
  exists ps. split.
  - rewrite (read_packet_frames _ _ _ _ Hfs Hc). unfold _read_packet at 1.
    rewrite (Hrun _ _ (deliver_attached _ _ _ Hc)), deliver_deliver.
    reflexivity.
  - apply (delivered_deliver _ _ _ Hc).
Qed.

Lemma sentinel_keeps_emitted_witness :
  exists later,
    _read_packet (encode [hello_frame] ++ overlong) world0
    = (Ret (-1), deliver (map packet_of [hello_frame] ++ later) world0)
    /\ delivered (deliver (map packet_of [hello_frame] ++ later) world0)
       = delivered world0 ++ map packet_of [hello_frame] ++ later.
Proof.
  apply (sentinel_keeps_emitted [hello_frame] overlong world0 conn0);
    reflexivity.
Defined.

(** ** Chunked delivery *)

(** A beginning of a stream of frames is some complete frames and the
    beginning of the next one. *)
Lemma split_stream fs :
  forall buf rest,
    buf ++ rest = encode fs ->
    exists fa fb part,
      fs = fa ++ fb /\ buf = encode fa ++ part
      /\ part ++ rest = encode fb /\ begins part fb.
Proof.
  induction fs as [|f fs IH]; intros buf rest H.
  - apply app_eq_nil in H as [-> ->]. exists [], [], [].
    repeat split; auto. left; reflexivity.
  - rewrite encode_cons in H.
    destruct (app_eq_app _ _ _ _ H) as [l [[Hb Hr]|[Hf Hr]]].
    + destruct (IH l rest (eq_sym Hr)) as (fa & fb & part & -> & -> & Hp & Hbeg).
      exists (f :: fa), fb, part. rewrite encode_cons, <- app_assoc, Hb. auto.
    + destruct l as [|x l].
      * rewrite app_nil_r in Hf. simpl in Hr. subst rest.
        exists [f], fs, []. repeat split; auto.
        -- unfold encode. simpl. rewrite !app_nil_r. auto.
        -- left; reflexivity.
      * exists [], (f :: fs), buf.
        split; [reflexivity|]. split; [reflexivity|]. split.
        -- rewrite encode_cons, Hf, Hr, <- app_assoc. reflexivity.
        -- right. exists f, fs. split; auto. exists (x :: l).
           split; [discriminate | auto].
Qed.

Lemma begins_stalls part fs w :
  forallb well_formed fs = true -> begins part fs ->
  _read_packet part w = (Ret 0, w).
Proof.
  intros Hwf [->|(f & fb & -> & Hp)]; [reflexivity|].
  simpl in Hwf. apply andb_true_iff in Hwf as [Hf _].
  apply (read_packet_partial _ _ _ Hf Hp).
Qed.

(** The decoder on any beginning of a stream of well-formed frames. *)
Lemma read_packet_prefix fs buf rest :
  forallb well_formed fs = true -> buf ++ rest = encode fs ->
  exists fa fb part,
    fs = fa ++ fb /\ part ++ rest = encode fb /\ begins part fb
    /\ forallb well_formed fb = true
    /\ (forall w c,
          _connection w = Some c ->
          _read_packet buf w
          = (Ret (len (encode fa)), deliver (map packet_of fa) w))
    /\ drop (len (encode fa)) buf = part.
Proof.
  intros Hwf H.
  destruct (split_stream _ _ _ H) as (fa & fb & part & -> & -> & Hp & Hbeg).
  rewrite forallb_app in Hwf. apply andb_true_iff in Hwf as [Hfa Hfb].
  exists fa, fb, part. repeat split; auto.
  - intros w c Hc. rewrite (read_packet_frames _ _ _ _ Hfa Hc).
    rewrite (begins_stalls _ _ _ Hfb Hbeg). simpl.
    rewrite Z.add_0_r. reflexivity.
  - apply drop_app_len.
Qed.

(** A buffer that is all of the stream still to come holds no beginning of
    a frame only: nothing is still to come. *)
Lemma begins_all part fs :
  begins part fs -> part = encode fs -> fs = [].
Proof.
  intros [->|(f & fb & -> & more & Hmore & Happ)] H.
  - destruct fs as [|f fs]; auto. discriminate.
  - exfalso. rewrite encode_cons in H. subst part.
    apply (f_equal (@List.length byte)) in Happ.
    rewrite !length_app in Happ. destruct more; [congruence|].
    simpl in Happ. lia.
Qed.

(** Feeding chunks to the decoder hands over every frame of the stream. *)
Lemma feed_frames chunks :
  forall fs part w c,
    forallb well_formed fs = true -> _connection w = Some c ->
    part ++ concat chunks = encode fs -> begins part fs ->
    feed chunks part w = (Ret [], deliver (map packet_of fs) w).
Proof.
  induction chunks as [|chunk chunks IH]; intros fs part w c Hwf Hc H Hbeg.
  - simpl in H. rewrite app_nil_r in H.
    pose proof (begins_all _ _ Hbeg H) as ->. simpl in H. subst part.
    simpl. rewrite deliver_nil. reflexivity.
  - simpl in H. rewrite app_assoc in H.
    destruct (read_packet_prefix _ _ _ Hwf H)
      as (fa & fb & part' & -> & Hp & Hbeg' & Hfb & Hrun & Hdrop).
    cbn [feed]. unfold bind. rewrite (Hrun _ _ Hc).
    replace (len (encode fa) =? -1) with false
      by (pose proof (len_nonneg (encode fa)); zcmp; auto; lia).
    rewrite Hdrop.
    rewrite (IH fb part' _ _ Hfb (deliver_attached _ _ _ Hc) Hp Hbeg').
    rewrite deliver_deliver, map_app. reflexivity.
Qed.

(** ** The read loop *)

Lemma read_blocked n w c :
  _connection w = Some c ->
  BaseMQTTProtocol.read n None w
  = (Blocked, set_conn (Some (Conn.request_read n c)) w).
Proof.
  intros Hc. unfold BaseMQTTProtocol.read, bind, on_connection.
  rewrite Hc. reflexivity.
Qed.

(** A read that hands bytes over, or finds the transport closing. *)
Lemma read_data n ev w c :
  _connection w = Some c ->
  Conn.ev_data ev <> [] \/ closing c || Conn.ev_closing ev = true ->
  BaseMQTTProtocol.read n (Some ev) w
  = (Ret (Conn.ev_data ev),
     set_conn (Some (Conn.complete_read ev (Conn.request_read n c))) w).
Proof.
  intros Hc H.
  unfold BaseMQTTProtocol.read, bind, on_connection, connection_is_closing, ret.
  rewrite Hc. simpl.
  destruct (Conn.ev_data ev) eqn:E; auto.
  destruct H as [H|H]; [congruence|].
  unfold Conn.is_closing. simpl. rewrite H. reflexivity.
Qed.

(** A read that hands nothing over while the transport is not closing. *)
Lemma read_reset n ev w c :
  _connection w = Some c ->
  Conn.ev_data ev = [] -> closing c || Conn.ev_closing ev = false ->
  BaseMQTTProtocol.read n (Some ev) w
  = (Raise ConnectionResetError,
     set_conn (Some (Conn.close (Conn.complete_read ev (Conn.request_read n c))))
              w).
Proof.
  intros Hc Hd Hcl.
  unfold BaseMQTTProtocol.read, bind, on_connection, connection_is_closing,
    raise, ret.
  rewrite Hc. simpl. rewrite Hd.
  unfold Conn.is_closing. simpl. rewrite Hcl. reflexivity.
Qed.

Lemma read_loop_body_blocked buf w c :
  _connection w = Some c ->
  read_loop_body None buf w
  = (Blocked, set_conn (Some (Conn.request_read max_buff_size c)) w).
Proof.
  intros Hc. unfold read_loop_body, try_except_reset, bind.
  rewrite (read_blocked _ _ _ Hc). reflexivity.
Qed.

Lemma read_loop_body_reset ev buf w c :
  _connection w = Some c ->
  Conn.ev_data ev = [] -> closing c || Conn.ev_closing ev = false ->
  read_loop_body (Some ev) buf w
  = (Ret None,
     logger DEBUG recv_empty
            (set_conn (Some (Conn.close (Conn.complete_read
                                           ev (Conn.request_read max_buff_size c))))
                      w)).
Proof.
  intros Hc Hd Hcl. unfold read_loop_body, try_except_reset, bind.
  rewrite (read_reset _ _ _ _ Hc Hd Hcl). reflexivity.
Qed.

Lemma read_loop_body_data ev buf w c n ps :
  _connection w = Some c ->
  Conn.ev_data ev <> [] \/ closing c || Conn.ev_closing ev = true ->
  (forall w1 c1, _connection w1 = Some c1 ->
                 _read_packet (buf ++ Conn.ev_data ev) w1 = (Ret n, deliver ps w1)) ->
  read_loop_body (Some ev) buf w
  = let w2 := deliver ps (set_conn (Some (Conn.complete_read
                                            ev (Conn.request_read max_buff_size c)))
                                   w) in
    if (n =? -1) || (closing c || Conn.ev_closing ev)
    then (Ret None, logger DEBUG recv_empty w2)
    else (Ret (Some (drop n (buf ++ Conn.ev_data ev))), w2).
Proof.
  intros Hc Hd Hrun. unfold read_loop_body, try_except_reset, bind.
  rewrite (read_data _ _ _ _ Hc Hd).
  erewrite Hrun by reflexivity.
  destruct (n =? -1); [reflexivity|].
  unfold connection_is_closing.
  erewrite deliver_attached by reflexivity.
  unfold Conn.is_closing. simpl.
  destruct (closing c || Conn.ev_closing ev); reflexivity.
Qed.

(** What every run of the loop keeps: it ends in a [break] or stays
    suspended in a read, it raises nothing, the protocol still holds its
    connection, and every read it asked for asked for [max_buff_size]
    bytes. *)
Lemma read_loop_while_inv script :
  forall buf w c,
    _connection w = Some c ->
    exists o w' c' k,
      read_loop_while script buf w = (o, w')
      /\ (o = Ret tt \/ o = Blocked)
      /\ _connection w' = Some c'
      /\ read_requests c' = read_requests c ++ repeat max_buff_size k
      /\ (k <= S (List.length script))%nat
      /\ (_connected w = true -> (1 <= k)%nat).
Proof.
  induction script as [|ev rest IH]; intros buf w c Hc; cbn [read_loop_while].
  - destruct (_connected w).
    + unfold bind. rewrite (read_loop_body_blocked _ _ _ Hc).
      eexists _, _, _, 1%nat. split; [reflexivity|].
      split; [right; reflexivity|]. split; [reflexivity|]. split; [reflexivity|].
      simpl; lia.
    + eexists _, _, _, 0%nat. split; [reflexivity|].
      split; [left; reflexivity|]. split; [exact Hc|]. simpl.
      rewrite app_nil_r. split; [reflexivity|]. split; [lia|discriminate].
  - destruct (_connected w).
    2:{ eexists _, _, _, 0%nat. split; [reflexivity|].
        split; [left; reflexivity|]. split; [exact Hc|]. simpl.
        rewrite app_nil_r. split; [reflexivity|]. split; [lia|discriminate]. }
    unfold bind.
    destruct (Conn.ev_data ev) as [|b bs] eqn:Hd;
      [destruct (closing c || Conn.ev_closing ev) eqn:Hcl|].
    2:{ rewrite (read_loop_body_reset _ _ _ _ Hc Hd Hcl).
        eexists _, _, _, 1%nat. split; [reflexivity|].
        split; [left; reflexivity|]. split; [reflexivity|].
        split; [reflexivity|simpl; lia]. }
    all: destruct (read_packet_loop_total
                     (S (List.length (buf ++ Conn.ev_data ev)))
                     (buf ++ Conn.ev_data ev) 0 (len (buf ++ Conn.ev_data ev)))
        as (n & ps & _ & Hrun); try (unfold len; lia).
    all: rewrite (read_loop_body_data ev buf w c n ps Hc)
      by (auto; rewrite Hd; auto; left; discriminate).
    all: cbv zeta.
    all: destruct ((n =? -1) || (closing c || Conn.ev_closing ev)).
    all: try (eexists _, _, _, 1%nat; split; [reflexivity|];
              split; [left; reflexivity|];
              split; [cbn [logger _connection];
                      erewrite deliver_attached by reflexivity; reflexivity|];
              split; [reflexivity|simpl; lia]).
    all: match goal with
         | |- context [read_loop_while _ ?b ?w1] =>
             destruct (IH b w1 _ ltac:(erewrite deliver_attached by reflexivity;
                                       reflexivity))
               as (o & w' & c' & k & Hrun' & Ho & Hc' & Hrr & Hk & _)
         end.
    all: exists o, w', c', (S k); rewrite Hrun';
      split; [reflexivity|]; split; [exact Ho|]; split; [exact Hc'|];
      split; [|simpl; lia]; rewrite Hrr; simpl; rewrite <- app_assoc;
      reflexivity.
Qed.

(** The read loop, handed the stream in non-empty chunks by a transport that
    stays open, hands over every frame and then waits for more. *)
Lemma read_loop_frames chunks :
  forall fs part w c,
    forallb well_formed fs = true -> _connection w = Some c ->
    closing c = false -> _connected w = true ->
    Forall (fun ch => ch <> []) chunks ->
    part ++ concat chunks = encode fs -> begins part fs ->
    exists w',
      read_loop_while (script_of chunks) part w = (Blocked, w')
      /\ delivered w' = delivered w ++ map packet_of fs.
Proof.
  induction chunks as [|chunk chunks IH];
    intros fs part w c Hwf Hc Hcl Hcon Hne H Hbeg;
    cbn [script_of map read_loop_while]; rewrite Hcon; unfold bind.
  - simpl in H. rewrite app_nil_r in H.
    pose proof (begins_all _ _ Hbeg H) as ->.
    rewrite (read_loop_body_blocked _ _ _ Hc).
    eexists. split; [reflexivity|].
    unfold delivered. simpl. rewrite Hc, app_nil_r. reflexivity.
  - fold (script_of chunks).
    simpl in H. rewrite app_assoc in H.
    inversion Hne as [|? ? Hch Hne']; subst.
    destruct (read_packet_prefix _ _ _ Hwf H)
      as (fa & fb & part' & -> & Hp & Hbeg' & Hfb & Hrun & Hdrop).
    rewrite (read_loop_body_data (Conn.mkReadEvent chunk false) part w c
                                 (len (encode fa)) (map packet_of fa) Hc)
      by (auto; left; exact Hch).
    cbv zeta. cbn [Conn.ev_data Conn.ev_closing].
    replace (len (encode fa) =? -1) with false
      by (pose proof (len_nonneg (encode fa)); zcmp; auto; lia).
    rewrite Hcl. cbn [orb]. rewrite Hdrop.
    match goal with
    | |- context [read_loop_while _ _ ?w2] =>
        destruct (IH fb part' w2 _ Hfb
                     ltac:(erewrite deliver_attached by reflexivity; reflexivity))
          as (w' & Hrun' & Hdel); auto
    end.
    + simpl. rewrite Hcl. reflexivity.
    + rewrite Hrun'. exists w'. split; [reflexivity|].
      rewrite Hdel. unfold delivered at 1.
      erewrite deliver_attached by reflexivity. simpl.
      unfold delivered. rewrite Hc, map_app, app_assoc. reflexivity.
Qed.

(** C2.  For every sequence of complete well-formed packets and every way of
    cutting their concatenation into chunks: appending chunk after chunk to
    what the decoder left, calling [_read_packet] and trimming by its answer
    hands to the connection the packets of the sequence, in order and no
    others, which is what a single call on the whole concatenation hands
    over; nothing is left in the buffer, and no call answers the sentinel.
    The read loop itself, which takes an empty read for a reset, does the
    same for every cut into non-empty chunks while the transport stays open
    and the gate stays set, and then waits in its next read. *)
Theorem chunked_feed_same_packets fs chunks w c :
  forallb well_formed fs = true -> concat chunks = encode fs ->
  _connection w = Some c ->
  feed chunks [] w = (Ret [], deliver (map packet_of fs) w)
  /\ _read_packet (concat chunks) w
     = (Ret (len (concat chunks)), deliver (map packet_of fs) w)
  /\ delivered (snd (feed chunks [] w))
     = delivered (snd (_read_packet (concat chunks) w))
  /\ delivered (snd (feed chunks [] w)) = delivered w ++ map packet_of fs
  /\ (closing c = false -> _connected w = true ->
      Forall (fun ch => ch <> []) chunks ->
      fst (_read_loop (script_of chunks) w) = Blocked
      /\ delivered (snd (_read_loop (script_of chunks) w))
         = delivered (snd (_read_packet (concat chunks) w))).
Proof.
  intros Hwf H Hc.
  assert (Hfeed : feed chunks [] w = (Ret [], deliver (map packet_of fs) w))
    by (apply (feed_frames chunks fs [] w c); auto; left; reflexivity).
  assert (Hone : _read_packet (concat chunks) w
                 = (Ret (len (concat chunks)), deliver (map packet_of fs) w)).
  { rewrite H. rewrite <- (app_nil_r (encode fs)) at 1.
    rewrite (read_packet_frames _ _ _ _ Hwf Hc). simpl.
    rewrite Z.add_0_r. reflexivity. }
  rewrite Hfeed, Hone. cbn [snd].
  split; [reflexivity|]. split; [reflexivity|]. split; [reflexivity|].
  split; [apply (delivered_deliver _ _ _ Hc)|].
  intros Hcl Hcon Hne. unfold _read_loop. rewrite Hcon.
  destruct (read_loop_frames chunks fs [] w c) as (w' & -> & Hdel); auto.
  - left; reflexivity.
  - cbn [fst snd]. split; [reflexivity|].
    rewrite Hdel. symmetry. apply (delivered_deliver _ _ _ Hc).
Qed.

Lemma chunked_feed_same_packets_witness :
  feed sample_chunks [] world0
  = (Ret [], deliver (map packet_of [hello_frame; disconnect_frame]) world0)
  /\ _read_packet (concat sample_chunks) world0
     = (Ret (len (concat sample_chunks)),
        deliver (map packet_of [hello_frame; disconnect_frame]) world0)
  /\ delivered (snd (feed sample_chunks [] world0))
     = delivered (snd (_read_packet (concat sample_chunks) world0))
  /\ delivered (snd (feed sample_chunks [] world0))
     = delivered world0 ++ map packet_of [hello_frame; disconnect_frame]
  /\ (closing conn0 = false -> _connected world0 = true ->
      Forall (fun ch => ch <> []) sample_chunks ->
      fst (_read_loop (script_of sample_chunks) world0) = Blocked
      /\ delivered (snd (_read_loop (script_of sample_chunks) world0))
         = delivered (snd (_read_packet (concat sample_chunks) world0))).
Proof.
  apply (chunked_feed_same_packets [hello_frame; disconnect_frame]
                                   sample_chunks world0 conn0);
    reflexivity.
Defined.

(** ** The read loop: claims *)

(** C5.  A transport read that hands nothing over while the transport does
    not report closing: [read] closes the transport and raises the reset
    condition; the loop, at whatever iteration this happens, catches it,
    logs, and ends normally without taking a further read; and no run of the
    loop ends in an exception. *)
Theorem zero_length_read_ends_loop ev rest buf w c :
  _connection w = Some c -> _connected w = true ->
  Conn.ev_data ev = [] -> closing c || Conn.ev_closing ev = false ->
  exists c',
    BaseMQTTProtocol.read max_buff_size (Some ev) w
    = (Raise ConnectionResetError, set_conn (Some c') w)
    /\ closing c' = true
    /\ close_calls c' = S (close_calls c)
    /\ read_loop_while (ev :: rest) buf w
       = (Ret tt, logger DEBUG recv_empty (set_conn (Some c') w))
    /\ (forall script buf1 w1 c1 e,
           _connection w1 = Some c1 ->
           fst (read_loop_while script buf1 w1) <> Raise e
           /\ fst (_read_loop script w1) <> Raise e).
Proof.
  intros Hc Hcon Hd Hcl.
  exists (Conn.close (Conn.complete_read ev (Conn.request_read max_buff_size c))).
  split; [apply (read_reset _ _ _ _ Hc Hd Hcl)|].
  split; [reflexivity|]. split; [reflexivity|]. split.
  - cbn [read_loop_while]. rewrite Hcon. unfold bind.
    rewrite (read_loop_body_reset _ _ _ _ Hc Hd Hcl). reflexivity.
  - intros script buf1 w1 c1 e Hc1.
    assert (Hw : forall b, fst (read_loop_while script b w1) <> Raise e).
    { intros b.
      destruct (read_loop_while_inv script b w1 c1 Hc1)
        as (o & w' & c' & k & -> & [-> | ->] & _); simpl; discriminate. }
    split; [apply Hw|].
    unfold _read_loop. destruct (_connected w1); [apply Hw|].
    simpl; discriminate.
Qed.

Lemma zero_length_read_ends_loop_witness :
  exists c',
    BaseMQTTProtocol.read max_buff_size (Some (Conn.mkReadEvent [] false)) world0
    = (Raise ConnectionResetError, set_conn (Some c') world0)
    /\ closing c' = true
    /\ close_calls c' = S (close_calls conn0)
    /\ read_loop_while
         [Conn.mkReadEvent [] false; Conn.mkReadEvent [xe0; x00] false]
         [x30] world0
       = (Ret tt, logger DEBUG recv_empty (set_conn (Some c') world0))
    /\ (forall script buf1 w1 c1 e,
           _connection w1 = Some c1 ->
           fst (read_loop_while script buf1 w1) <> Raise e
           /\ fst (_read_loop script w1) <> Raise e).
Proof.
  apply (zero_length_read_ends_loop
           (Conn.mkReadEvent [] false) [Conn.mkReadEvent [xe0; x00] false]
           [x30] world0 conn0);
    reflexivity.
Defined.

(** C8.  Whatever [buffer_size] the protocol object was constructed with,
    whatever transport it was connected to and whatever the transport
    answers, the reads that the read loop asks for (there is at least one)
    all ask for 65536 bytes. *)
Theorem read_requests_fixed_size buffer_size connection script :
  exists c' k,
    _connection
      (snd (_read_loop script
              (snd (MQTTProtocol.connection_made
                      connection (MQTTProtocol.__init__ buffer_size)))))
    = Some c'
    /\ read_requests c' = read_requests connection ++ repeat 65536 k
    /\ (1 <= k <= S (List.length script))%nat.
Proof.
  unfold _read_loop.
  set (w := snd (MQTTProtocol.connection_made
                   connection (MQTTProtocol.__init__ buffer_size))).
  assert (Hc : _connection w = Some connection) by reflexivity.
  assert (Hcon : _connected w = true) by reflexivity.
  rewrite Hcon.
  destruct (read_loop_while_inv script [] w connection Hc)
    as (o & w' & c' & k & -> & _ & Hc' & Hrr & Hk & Hk1).
  exists c', k. cbn [snd]. split; [exact Hc'|]. split; [exact Hrr|].
  split; [apply Hk1, Hcon | exact Hk].
Qed.

(** ** The life cycle and the send side: claims *)

Lemma update_nth_app_length {A : Type} (f : A -> A) (l : list A) x r :
  update_nth (List.length l) f (l ++ x :: r) = l ++ f x :: r.
Proof. induction l as [|y l IH]; simpl; [reflexivity | rewrite IH; reflexivity]. Qed.

Lemma connection_made_world connection w :
  MQTTProtocol.connection_made connection w
  = (Ret tt,
     mkWorld (Some connection) true (_queue w) (Some (List.length (tasks w)))
             (queues w) (tasks w ++ [TaskPending])
             (log w ++ [(INFO, "[CONNECTION MADE]"%string)])).
Proof. destruct w. reflexivity. Qed.

Lemma connection_lost_world exc w c :
  _connection w = Some c ->
  MQTTProtocol.connection_lost exc w
  = (Ret tt,
     mkWorld (Some (Conn.put_package (MQTTCommands.DISCONNECT, []) c)) false
             (List.length (queues w)) None (queues w ++ [[]])
             (match _read_loop_future w with
              | Some t => update_nth t cancel (tasks w)
              | None => tasks w
              end)
             (log w ++ [match exc with
                        | Some _ => (WARNING, "[EXC: CONN LOST]"%string)
                        | None => (INFO, "[CONN CLOSE NORMALLY]"%string)
                        end])).
Proof.
  destruct w as [conn connected q fut qs ts lg]. simpl. intros ->.
  unfold MQTTProtocol.connection_lost, BaseMQTTProtocol.connection_lost,
    bind, on_connection, do_log.
  destruct exc, fut; reflexivity.
Qed.







(** C7.  With a transport attached, [write_data] never raises.  While the
    transport does not report closing, the bytes are written to it, behind
    what was written before, and nothing is logged; when it reports closing,
    nothing is written and one warning is logged. *)
Theorem write_data_only_when_open data w c :
  _connection w = Some c ->
  exists w',
    BaseMQTTProtocol.write_data data w = (Ret tt, w')
    /\ (closing c = false ->
        _connection w' = Some (Conn.write data c) /\ log w' = log w)
    /\ (closing c = true ->
        _connection w' = Some c
        /\ log w' = log w ++ [(WARNING, "[TRYING WRITE TO CLOSED SOCKET]"%string)])
    /\ option_map written (_connection w')
       = Some (if closing c then written c else written c ++ [data]).
Proof.
  intros Hc.
  unfold BaseMQTTProtocol.write_data, bind, connection_is_closing,
    on_connection, do_log, Conn.is_closing.
  rewrite Hc. destruct (closing c) eqn:Hcl; cbn [negb]; try rewrite Hc;
    eexists; (split; [reflexivity|]); cbn [_connection log logger set_conn];
    rewrite ?Hc; repeat split; auto; discriminate.
Qed.

Lemma write_data_only_when_open_witness :
  exists w',
    BaseMQTTProtocol.write_data [xe0; x00] world0 = (Ret tt, w')
    /\ (closing conn0 = false ->
        _connection w' = Some (Conn.write [xe0; x00] conn0)
        /\ log w' = log world0)
    /\ (closing conn0 = true ->
        _connection w' = Some conn0
        /\ log w' = log world0
                    ++ [(WARNING, "[TRYING WRITE TO CLOSED SOCKET]"%string)])
    /\ option_map written (_connection w')
       = Some (if closing conn0 then written conn0
               else written conn0 ++ [[xe0; x00]]).
Proof.
  apply (write_data_only_when_open [xe0; x00] world0 conn0). reflexivity.
Defined.

(** The two ways [write_data] goes with a transport attached. *)
Lemma write_data_open data w c :
  _connection w = Some c -> closing c = false ->
  BaseMQTTProtocol.write_data data w
  = (Ret tt, set_conn (Some (Conn.write data c)) w).
Proof.
  intros Hc Hcl.
  unfold BaseMQTTProtocol.write_data, bind, connection_is_closing,
    on_connection, Conn.is_closing.
  rewrite Hc, Hcl. cbn [negb]. rewrite Hc. reflexivity.
Qed.

Lemma write_data_closing data w c :
  _connection w = Some c -> closing c = true ->
  BaseMQTTProtocol.write_data data w
  = (Ret tt, logger WARNING "[TRYING WRITE TO CLOSED SOCKET]" w).
Proof.
  intros Hc Hcl.
  unfold BaseMQTTProtocol.write_data, bind, connection_is_closing,
    on_connection, do_log, Conn.is_closing.
  rewrite Hc, Hcl. reflexivity.
Qed.

Lemma write_data_returns data w c :
  _connection w = Some c ->
  exists w', BaseMQTTProtocol.write_data data w = (Ret tt, w').
Proof.
  intros Hc. destruct (closing c) eqn:Hcl.
  - rewrite (write_data_closing _ _ _ Hc Hcl). eexists. reflexivity.
  - rewrite (write_data_open _ _ _ Hc Hcl). eexists. reflexivity.
Qed.

(** C6, as the code has it.  With a transport attached, whatever the packet
    builders are: [send_subscribe_packet] and [send_unsubscribe_packet]
    return the message identifier that the builder allocated;
    [send_publish] returns the pair of that identifier and the packet bytes;
    [send_simple_command_packet] and [send_ping_request] return nothing;
    [send_disconnect] returns the packet bytes. *)
Theorem send_return_values
        (Subscription Topic Message Properties : Type)
        (build_subscribe : Subscription -> World -> Z * bytes)
        (build_unsubscribe : Topic -> World -> Z * bytes)
        (build_simple : Z -> bytes)
        (build_publish : Message -> World -> Z * bytes)
        (build_disconnect : World -> Z -> Properties -> bytes)
        (PINGREQ : Z)
        subscription topic message cmd reason_code properties w c :
  _connection w = Some c ->
  fst (send_subscribe_packet build_subscribe subscription w)
  = Ret (PyInt (fst (build_subscribe subscription w)))
  /\ fst (send_unsubscribe_packet build_unsubscribe topic w)
     = Ret (PyInt (fst (build_unsubscribe topic w)))
  /\ fst (send_publish build_publish message w)
     = Ret (PyPair (PyInt (fst (build_publish message w)))
                   (PyBytes (snd (build_publish message w))))
  /\ fst (send_simple_command_packet build_simple cmd w) = Ret PyNone
  /\ fst (send_ping_request build_simple PINGREQ w) = Ret PyNone
  /\ fst (send_disconnect build_disconnect reason_code properties w)
     = Ret (PyBytes (build_disconnect w reason_code properties)).
Proof.
  intros Hc.
  unfold send_ping_request.
  unfold send_subscribe_packet, send_unsubscribe_packet, send_publish,
    send_simple_command_packet, send_disconnect, bind, ret.
  cbv beta zeta.
  destruct (build_subscribe subscription w) as [mid1 pkg1].
  destruct (build_unsubscribe topic w) as [mid2 pkg2].
  destruct (build_publish message w) as [mid3 pkg3].
  destruct (write_data_returns pkg1 w c Hc) as (w1 & ->).
  destruct (write_data_returns pkg2 w c Hc) as (w2 & ->).
  destruct (write_data_returns pkg3 w c Hc) as (w3 & ->).
  destruct (write_data_returns (build_simple cmd) w c Hc) as (w4 & ->).
  destruct (write_data_returns (build_simple PINGREQ) w c Hc) as (w5 & ->).
  destruct (write_data_returns (build_disconnect w reason_code properties)
                               w c Hc) as (w6 & ->).
  repeat split.
Qed.

Lemma send_return_values_witness :
  fst (send_subscribe_packet (fun (_ : unit) _ => (1, [x82; x00])) tt world0)
  = Ret (PyInt 1)
  /\ fst (send_unsubscribe_packet (fun (_ : unit) _ => (2, [xa2; x00])) tt world0)
     = Ret (PyInt 2)
  /\ fst (send_publish (fun (_ : unit) _ => (3, [x32; x00])) tt world0)
     = Ret (PyPair (PyInt 3) (PyBytes [x32; x00]))
  /\ fst (send_simple_command_packet (fun _ => [xc0; x00]) 192 world0)
     = Ret PyNone
  /\ fst (send_ping_request (fun _ => [xc0; x00]) 192 world0) = Ret PyNone
  /\ fst (send_disconnect (fun _ _ (_ : unit) => [xe0; x00]) 0 tt world0)
     = Ret (PyBytes [xe0; x00]).
Proof.
  apply (send_return_values
           unit unit unit unit
           (fun _ _ => (1, [x82; x00])) (fun _ _ => (2, [xa2; x00]))
           (fun _ => [xc0; x00]) (fun _ _ => (3, [x32; x00]))
           (fun _ _ _ => [xe0; x00]) 192 tt tt tt 192 0 tt world0 conn0).
  reflexivity.
Defined.

(** C6, as the specification states it, fails twice: [send_publish] does not
    return the bare message identifier, and [send_disconnect] does not return
    nothing. *)
Lemma send_publish_and_disconnect_return_more :
  fst (send_publish (fun (_ : unit) _ => (3, [x32; x00])) tt world0)
  <> Ret (PyInt 3)
  /\ fst (send_disconnect (fun _ _ (_ : unit) => [xe0; x00]) 0 tt world0)
     <> Ret PyNone.
Proof. split; vm_compute; discriminate. Qed.

(** * Further properties of the decoder *)

(** ** What the decoder takes is frames *)

Lemma skipn_nonempty (data : bytes) (i : Z) :
  0 <= i < len data -> exists b l, skipn (Z.to_nat i) data = b :: l.
Proof.
  intros Hi. destruct (skipn (Z.to_nat i) data) as [|b l] eqn:E.
  - apply skipn_all_len in E; lia.
  - exists b, l. reflexivity.
Qed.

Lemma skipn_app_within (data data2 : bytes) (i : Z) :
  0 <= i <= len data ->
  skipn (Z.to_nat i) (data ++ data2) = skipn (Z.to_nat i) data ++ data2.
Proof.
  intros Hi. rewrite skipn_app.
  replace (Z.to_nat i - List.length data)%nat with 0%nat
    by (unfold len in Hi; lia).
  reflexivity.
Qed.

(** A [break] of the inner loop that leaves the packet inside the buffer has
    walked a complete length field. *)
Lemma read_header_frame fuel :
  forall data ds p h mult v hs ps,
    read_header fuel data (len data) ds p h mult v = HeaderBreak hs ps ->
    hs + ps <= ds -> 0 <= p + h ->
    exists lb tail,
      skipn (Z.to_nat (p + h)) data = lb ++ tail
      /\ varint_at mult lb
      /\ hs = h + len lb
      /\ ps = v + varint_value mult lb.
Proof.
  induction fuel as [|fuel IH]; intros data ds p h mult v hs ps H Hfit Hp;
    [discriminate|].
  destruct (Z.lt_ge_cases (p + h) (len data)) as [Hlt|Hge];
    [|rewrite read_header_end in H by lia; discriminate].
  destruct (skipn_nonempty data (p + h)) as (b & l & Hsk); [lia|].
  rewrite (read_header_S _ _ _ _ _ _ _ _ _ Hp Hsk) in H.
  destruct (skipn_cons_subscript _ _ _ _ Hp Hsk) as (_ & Hsk' & _).
  rewrite Z.gtb_ltb in H.
  destruct (Z.ltb_spec 2097152 mult) as [|Hm]; [discriminate|].
  rewrite Z.gtb_ltb in H.
  destruct (Z.ltb_spec ds (h + 1 + (v + Z.land (int_of_byte b) 127 * mult)))
    as [Hbig|Hsmall].
  { injection H as <- <-. lia. }
  destruct (Z.land (int_of_byte b) 128 =? 0) eqn:Hbit.
  - injection H as <- <-. exists [b], l. split; [exact Hsk|].
    split; [apply varint_last; auto; unfold continues; rewrite Hbit; auto|].
    cbn [varint_value]. rewrite len_cons, len_nil. lia.
  - destruct (IH _ _ _ _ _ _ _ _ H Hfit ltac:(lia)) as (lb & tail & Hl & Hv & -> & ->).
    replace (p + (h + 1)) with (p + h + 1) in Hl by lia.
    exists (b :: lb), tail.
    split; [rewrite Hsk; simpl; f_equal; rewrite <- Hsk'; exact Hl|].
    split; [apply varint_more; auto; unfold continues; rewrite Hbit; auto|].
    cbn [varint_value]. rewrite len_cons. lia.
Qed.

(** The sentinel does not depend on what follows in the buffer. *)
Lemma read_header_sentinel_extend fuel :
  forall data data2 ds ds' p h mult v,
    read_header fuel data (len data) ds p h mult v = HeaderReturn (-1) ->
    0 <= p -> 0 <= h -> ds <= ds' ->
    read_header fuel (data ++ data2) (len (data ++ data2)) ds' p h mult v
    = HeaderReturn (-1).
Proof.
  induction fuel as [|fuel IH]; intros data data2 ds ds' p h mult v H Hp Hh Hds;
    [discriminate|].
  destruct (Z.lt_ge_cases (p + h) (len data)) as [Hlt|Hge];
    [|rewrite read_header_end in H by lia; injection H as H; lia].
  destruct (skipn_nonempty data (p + h)) as (b & l & Hsk); [lia|].
  assert (Hsk2 : skipn (Z.to_nat (p + h)) (data ++ data2) = b :: (l ++ data2))
    by (rewrite skipn_app_within by lia; rewrite Hsk; reflexivity).
  assert (Hph : 0 <= p + h) by lia.
  rewrite (read_header_S _ _ _ _ _ _ _ _ _ Hph Hsk) in H.
  rewrite (read_header_S _ _ _ _ _ _ _ _ _ Hph Hsk2).
  destruct (mult >? 2097152); [reflexivity|].
  rewrite Z.gtb_ltb in H. rewrite Z.gtb_ltb.
  destruct (Z.ltb_spec ds (h + 1 + (v + Z.land (int_of_byte b) 127 * mult)));
    [discriminate|].
  replace (ds' <? h + 1 + (v + Z.land (int_of_byte b) 127 * mult)) with false
    by (symmetry; apply Z.ltb_ge; lia).
  destruct (Z.land (int_of_byte b) 128 =? 0); [discriminate|].
  apply (IH _ _ ds); auto; lia.
Qed.

Lemma varint_at_pow mult lb :
  varint_at mult lb -> 0 < mult ->
  mult * 128 ^ Z.of_nat (List.length lb) <= 2097152 * 128.
Proof.
  induction 1 as [mult b Hm Hc | mult b r Hm Hc Hr IH]; intros Hpos.
  - simpl. lia.
  - cbn [List.length]. rewrite Nat2Z.inj_succ, Z.pow_succ_r by lia.
    specialize (IH ltac:(lia)). lia.
Qed.

Lemma varint_at_ends mult lb : varint_at mult lb -> length_field_ends lb = true.
Proof.
  induction 1 as [mult b Hm Hc | mult b r Hm Hc Hr IH].
  - simpl. rewrite Hc. reflexivity.
  - pose proof (varint_at_length _ _ Hr).
    destruct r as [|b' r']; [simpl in *; lia|].
    cbn [length_field_ends] in *. rewrite Hc, IH. reflexivity.
Qed.

(** What the decoder walks from weight one is a length field of the wire
    format. *)
Lemma varint_is_length_field lb : varint_at 1 lb -> is_length_field lb = true.
Proof.
  intros H. unfold is_length_field. rewrite (varint_at_ends _ _ H).
  rewrite andb_true_r. apply Nat.leb_le.
  pose proof (varint_at_pow _ _ H ltac:(lia)) as Hpow.
  destruct (Nat.le_gt_cases (List.length lb) 4) as [|Hgt]; auto.
  exfalso.
  assert (Hmono : 128 ^ 5 <= 128 ^ Z.of_nat (List.length lb))
    by (apply Z.pow_le_mono_r; lia).
  change (128 ^ 5) with 34359738368 in Hmono. lia.
Qed.

(** The value of a length field is at most 268435455. *)
Lemma varint_value_max mult lb :
  varint_at mult lb -> 0 < mult ->
  varint_value mult lb <= 268435456 - mult.
Proof.
  induction 1 as [mult b Hm Hc | mult b r Hm Hc Hr IH]; intros Hpos;
    cbn [varint_value]; pose proof (low7_range (int_of_byte b)).
  - nia.
  - specialize (IH ltac:(lia)). nia.
Qed.

(** The head of a buffer: no complete packet there, or a length field that
    runs into a fifth byte, or a well-formed frame. *)
Lemma first_frame data :
  (forall w, _read_packet data w = (Ret 0, w))
  \/ (forall data2 w, _read_packet (data ++ data2) w = (Ret (-1), w))
  \/ (exists f rest, data = encode_frame f ++ rest /\ well_formed f = true).
Proof.
  destruct (Z.lt_ge_cases (len data) 2) as [Hshort|Hlong].
  { left. intros w. unfold _read_packet. cbn [read_packet_loop].
    replace (len data <? 2) with true by (symmetry; apply Z.ltb_lt; lia).
    reflexivity. }
  pose proof (read_header_inv header_fuel data (len data) 0 1 1 0) as Hinv.
  pose proof (read_header_fuel data (len data) (len data) 0) as Hfuel.
  destruct (read_header header_fuel data (len data) (len data) 0 1 1 0)
    as [x|hs ps|e|] eqn:E; try congruence.
  - destruct Hinv as [->| ->]; try lia.
    + left. intros w. unfold _read_packet. cbn [read_packet_loop].
      replace (len data <? 2) with false by (symmetry; apply Z.ltb_ge; lia).
      rewrite E. reflexivity.
    + right; left. intros data2 w. unfold _read_packet. cbn [read_packet_loop].
      pose proof (len_nonneg data2).
      replace (len (data ++ data2) <? 2) with false
        by (symmetry; apply Z.ltb_ge; rewrite len_app; lia).
      rewrite (read_header_sentinel_extend _ _ data2 _ (len (data ++ data2))
                                           _ _ _ _ E)
        by (try rewrite len_app; lia).
      reflexivity.
  - destruct Hinv as (Hhs & Hps & Hin); try lia.
    destruct (Z.le_gt_cases (hs + ps) (len data)) as [Hfit|Hnot].
    + right; right.
      destruct (read_header_frame _ _ _ _ _ _ _ _ _ E Hfit ltac:(lia))
        as (lb & tail & Hsk & Hvar & -> & ->).
      destruct data as [|b0 data']; [rewrite len_nil in Hlong; lia|].
      change (skipn (Z.to_nat (0 + 1)) (b0 :: data')) with data' in Hsk.
      subst data'. rewrite len_cons, len_app in Hfit.
      pose proof (varint_value_nonneg lb 1 ltac:(lia)) as Hnn.
      exists (mkFrame b0 lb (firstn (Z.to_nat (varint_value 1 lb)) tail)),
        (skipn (Z.to_nat (varint_value 1 lb)) tail).
      split.
      * unfold encode_frame. cbn [f_command f_length f_payload].
        simpl. rewrite <- !app_assoc, firstn_skipn. reflexivity.
      * unfold well_formed. cbn [f_length f_payload].
        rewrite (varint_is_length_field _ Hvar). cbn [andb].
        apply Z.eqb_eq. unfold len in *. rewrite length_firstn. lia.
    + left. intros w. unfold _read_packet. cbn [read_packet_loop].
      replace (len data <? 2) with false by (symmetry; apply Z.ltb_ge; lia).
      rewrite E.
      replace (hs + ps >? len data) with true
        by (symmetry; apply Z.gtb_lt; lia).
      reflexivity.
  - destruct Hinv; lia.
Qed.

(** Every buffer is some well-formed frames and a rest that starts with no
    complete packet: the decoder hands over the packets of those frames; it
    answers their length, and nothing more would be taken from the rest, or
    it answers the sentinel, as it would whatever followed the rest. *)
Lemma read_packet_decompose k :
  forall data,
    (List.length data <= k)%nat ->
    exists fs rest n,
      data = encode fs ++ rest
      /\ forallb well_formed fs = true
      /\ (forall w c,
             _connection w = Some c ->
             _read_packet data w = (Ret n, deliver (map packet_of fs) w))
      /\ ((n = len (encode fs)
           /\ forall w, _read_packet rest w = (Ret 0, w))
          \/ (n = -1
              /\ forall data2 w,
                  _read_packet (rest ++ data2) w = (Ret (-1), w))).
Proof.
  induction k as [|k IH]; intros data Hk;
    (destruct (first_frame data) as [Hst|[Hbad|(f & rest & Hd & Hf)]];
     [ exists [], data, 0; split; [reflexivity|]; split; [reflexivity|];
       split; [intros w c _; rewrite deliver_nil; apply Hst|];
       left; split; [reflexivity | exact Hst]
     | exists [], data, (-1); split; [reflexivity|]; split; [reflexivity|];
       split; [intros w c _; rewrite deliver_nil;
               rewrite <- (app_nil_r data) at 1; apply Hbad|];
       right; split; [reflexivity | exact Hbad]
     | ]).
  - exfalso. subst data. unfold encode_frame in Hk. simpl in Hk. lia.
  - assert (Hrest : (List.length rest <= k)%nat).
    { subst data. unfold encode_frame in Hk. simpl in Hk.
      rewrite !length_app in Hk. lia. }
    destruct (IH rest Hrest) as (fs & rest' & n & Hr & Hwf & Hrun & Hn).
    pose proof (len_nonneg (encode_frame f)) as Hlf.
    pose proof (len_nonneg (encode fs)) as Hlfs.
    exists (f :: fs), rest', (if n <? 0 then n else len (encode_frame f) + n).
    split; [subst data rest; rewrite encode_cons, <- app_assoc; reflexivity|].
    split; [cbn [forallb]; rewrite Hf, Hwf; reflexivity|].
    split.
    + intros w c Hc. subst data.
      rewrite (read_packet_frame _ _ _ _ Hf Hc).
      rewrite (Hrun _ _ (deliver_attached _ _ _ Hc)), deliver_deliver.
      reflexivity.
    + destruct Hn as [[-> Hst]|[-> Hbad]].
      * left. replace (len (encode fs) <? 0) with false
          by (symmetry; apply Z.ltb_ge; lia).
        split; [rewrite encode_cons, len_app; reflexivity | exact Hst].
      * right. split; [reflexivity | exact Hbad].
Qed.

Lemma snd_shift_result n r : snd (shift_result n r) = snd r.
Proof. destruct r as [[v| | |] w]; reflexivity. Qed.

Lemma forallb_frame_of (pkts : list (byte * bytes)) :
  Forall (fun p => len (snd p) <= 268435455) pkts ->
  forallb well_formed (map (fun p => frame_of (fst p) (snd p)) pkts) = true.
Proof.
  induction 1 as [|p pkts Hp _ IH]; [reflexivity|].
  cbn [map forallb]. rewrite (frame_of_well_formed _ _ Hp), IH. reflexivity.
Qed.

(** X1.  Whatever the buffer holds, what [_read_packet] takes from it is a
    sequence of well-formed frames at its head: the packets handed over are
    the packets of those frames, in order; the answer is their total length,
    and then calling again on the rest takes nothing; or the answer is the
    sentinel, and then the rest is answered with the sentinel whatever is
    appended to it. *)
Theorem read_packet_takes_frames data :
  exists fs rest n,
    data = encode fs ++ rest
    /\ forallb well_formed fs = true
    /\ (forall w c,
           _connection w = Some c ->
           _read_packet data w = (Ret n, deliver (map packet_of fs) w))
    /\ ((n = len (encode fs)
         /\ forall w, _read_packet rest w = (Ret 0, w))
        \/ (n = -1
            /\ forall data2 w,
                _read_packet (rest ++ data2) w = (Ret (-1), w))).
Proof. apply (read_packet_decompose (List.length data)). lia. Qed.

(** X2.  Every packet that a call of [_read_packet] hands over has a command
    between 0 and 255 and a payload of at most 268435455 bytes, whatever the
    buffer holds. *)
Theorem delivered_packets_bounded data w c pkt :
  _connection w = Some c ->
  In pkt (delivered (snd (_read_packet data w))) ->
  In pkt (delivered w)
  \/ (0 <= fst pkt <= 255 /\ len (snd pkt) <= 268435455).
Proof.
  intros Hc Hin.
  destruct (read_packet_decompose (List.length data) data ltac:(lia))
    as (fs & rest & n & _ & Hwf & Hrun & _).
  rewrite (Hrun _ _ Hc) in Hin. cbn [snd] in Hin.
  rewrite (delivered_deliver _ _ _ Hc) in Hin.
  apply in_app_or in Hin as [Hold|Hnew]; [left; exact Hold|right].
  apply in_map_iff in Hnew as (f & <- & Hf).
  rewrite forallb_forall in Hwf. specialize (Hwf f Hf).
  destruct (well_formed_inv _ Hwf) as (Hvar & Hval & _).
  pose proof (varint_value_max _ _ Hvar ltac:(lia)) as Hmax.
  pose proof (int_of_byte_range (f_command f)).
  unfold packet_of. cbn [fst snd]. lia.
Qed.

Lemma delivered_packets_bounded_witness :
  In (224, []) (delivered world0)
  \/ (0 <= fst (224, @nil byte) <= 255
      /\ len (snd (224, @nil byte)) <= 268435455).
Proof.
  apply (delivered_packets_bounded ragged world0 conn0 (224, [])).
  - reflexivity.
  - vm_compute. left. reflexivity.
Defined.

(** X3.  Decoding a buffer with more bytes behind it: the packets of the
    buffer alone are handed over first, and in the same way; if the buffer
    alone is answered with the sentinel, so is the longer one; else decoding
    goes on with what the first call left and the new bytes, and the counts
    add up. *)
Theorem read_packet_prefix_stable data1 data2 w c :
  _connection w = Some c ->
  _read_packet (data1 ++ data2) w
  = match _read_packet data1 w with
    | (Ret n, w1) =>
        if n =? -1 then (Ret (-1), w1)
        else shift_result n (_read_packet (drop n data1 ++ data2) w1)
    | r => r
    end.
Proof.
  intros Hc.
  destruct (read_packet_decompose (List.length data1) data1 ltac:(lia))
    as (fs & rest & n & Hd & Hwf & Hrun & Hn).
  rewrite (Hrun _ _ Hc). subst data1. rewrite <- app_assoc.
  rewrite (read_packet_frames _ _ _ _ Hwf Hc).
  pose proof (len_nonneg (encode fs)).
  destruct Hn as [[-> Hst]|[-> Hbad]].
  - replace (len (encode fs) =? -1) with false
      by (symmetry; apply Z.eqb_neq; lia).
    rewrite drop_app_len. reflexivity.
  - rewrite Hbad. reflexivity.
Qed.

Lemma read_packet_prefix_stable_witness :
  _read_packet (ragged ++ [x03; x04]) world0
  = match _read_packet ragged world0 with
    | (Ret n, w1) =>
        if n =? -1 then (Ret (-1), w1)
        else shift_result n (_read_packet (drop n ragged ++ [x03; x04]) w1)
    | r => r
    end.
Proof.
  apply (read_packet_prefix_stable ragged [x03; x04] world0 conn0).
  reflexivity.
Defined.

(** X4.  A count that [_read_packet] answers lies inside the buffer, and
    what is left behind it holds no complete packet: a call on it alone
    takes nothing.  So no byte is decoded twice when the caller trims the
    buffer by the count. *)
Theorem read_packet_rest_is_stuck data w c n w1 :
  _connection w = Some c ->
  _read_packet data w = (Ret n, w1) -> n <> -1 ->
  0 <= n <= len data
  /\ forall w', _read_packet (drop n data) w' = (Ret 0, w').
Proof.
  intros Hc Hrun Hn.
  destruct (read_packet_decompose (List.length data) data ltac:(lia))
    as (fs & rest & n' & Hd & Hwf & Hrun' & Hn').
  rewrite (Hrun' _ _ Hc) in Hrun. injection Hrun as <- <-.
  pose proof (len_nonneg (encode fs)). pose proof (len_nonneg rest).
  destruct Hn' as [[-> Hst]|[-> _]]; [|congruence].
  subst data. rewrite len_app, drop_app_len. split; [lia | exact Hst].
Qed.

Lemma read_packet_rest_is_stuck_witness :
  0 <= 2 <= len ragged
  /\ forall w', _read_packet (drop 2 ragged) w' = (Ret 0, w').
Proof.
  apply (read_packet_rest_is_stuck
           ragged world0 conn0 2
           (deliver [(224, [])] world0)).
  - reflexivity.
  - reflexivity.
  - discriminate.
Defined.

(** Feeding chunks of arbitrary bytes behind a buffer that holds no complete
    packet leaves the world that one call on all the bytes leaves. *)
Lemma feed_any chunks :
  forall buf w c,
    _connection w = Some c ->
    (forall w', _read_packet buf w' = (Ret 0, w')) ->
    snd (feed chunks buf w) = snd (_read_packet (buf ++ concat chunks) w).
Proof.
  induction chunks as [|chunk chunks IH]; intros buf w c Hc Hst.
  - simpl. rewrite app_nil_r, Hst. reflexivity.
  - cbn [feed concat]. unfold bind. rewrite app_assoc.
    destruct (read_packet_decompose (List.length (buf ++ chunk)) (buf ++ chunk)
                                    ltac:(lia))
      as (fs & rest & n & Hd & Hwf & Hrun & Hn).
    rewrite (Hrun _ _ Hc). rewrite Hd, <- app_assoc.
    rewrite (read_packet_frames _ _ _ _ Hwf Hc), snd_shift_result.
    pose proof (len_nonneg (encode fs)).
    destruct Hn as [[-> Hst']|[-> Hbad]].
    + replace (len (encode fs) =? -1) with false
        by (symmetry; apply Z.eqb_neq; lia).
      rewrite drop_app_len.
      apply (IH rest _ _ (deliver_attached _ _ _ Hc) Hst').
    + cbn [Z.eqb snd]. rewrite Hbad. reflexivity.
Qed.

(** X5.  For every sequence of bytes, well formed or not, and every way of
    cutting it into chunks, feeding the chunks one after the other (append,
    decode, stop on the sentinel, else trim by the count) leaves the world
    that a single call on the whole sequence leaves: the same packets were
    handed over, in the same order, and nothing else was touched. *)
Theorem chunked_feed_any_stream chunks w c :
  _connection w = Some c ->
  snd (feed chunks [] w) = snd (_read_packet (concat chunks) w).
Proof.
  intros Hc. apply (feed_any chunks [] w c Hc). intros w'. reflexivity.
Qed.

Lemma chunked_feed_any_stream_witness :
  snd (feed [[xe0]; [x00; x30; xff]; []; [x01; x02]] [] world0)
  = snd (_read_packet (concat [[xe0]; [x00; x30; xff]; []; [x01; x02]]) world0).
Proof.
  apply (chunked_feed_any_stream
           [[xe0]; [x00; x30; xff]; []; [x01; x02]] world0 conn0).
  reflexivity.
Defined.

(** X6.  Round trip with the standard encoding of the remaining length: the
    frames of any packets whose payloads have at most 268435455 bytes, put
    in a row, are decoded into exactly those packets, in order, with every
    byte consumed, in one call as well as in chunks cut anywhere. *)
Theorem encode_decode_round_trip (pkts : list (byte * bytes)) chunks w c :
  _connection w = Some c ->
  Forall (fun p => len (snd p) <= 268435455) pkts ->
  concat chunks = encode (map (fun p => frame_of (fst p) (snd p)) pkts) ->
  _read_packet (encode (map (fun p => frame_of (fst p) (snd p)) pkts)) w
  = (Ret (len (encode (map (fun p => frame_of (fst p) (snd p)) pkts))),
     deliver (map (fun p => (int_of_byte (fst p), snd p)) pkts) w)
  /\ feed chunks [] w
     = (Ret [], deliver (map (fun p => (int_of_byte (fst p), snd p)) pkts) w).
Proof.
  intros Hc Hlen Hcut.
  pose proof (forallb_frame_of pkts Hlen) as Hwf.
  assert (Hpk : map packet_of (map (fun p => frame_of (fst p) (snd p)) pkts)
                = map (fun p => (int_of_byte (fst p), snd p)) pkts)
    by (rewrite map_map; reflexivity).
  split.
  - rewrite <- (app_nil_r (encode _)) at 1.
    rewrite (read_packet_frames _ _ _ _ Hwf Hc), Hpk. simpl.
    rewrite Z.add_0_r. reflexivity.
  - rewrite <- Hpk. apply (feed_frames chunks _ [] w c Hwf Hc Hcut).
    left; reflexivity.
Qed.

Lemma encode_decode_round_trip_witness :
  _read_packet
    (encode (map (fun p => frame_of (fst p) (snd p))
                 [(x30, [x68; x69]); (xe0, [])])) world0
  = (Ret (len (encode (map (fun p => frame_of (fst p) (snd p))
                           [(x30, [x68; x69]); (xe0, [])]))),
     deliver (map (fun p => (int_of_byte (fst p), snd p))
                  [(x30, [x68; x69]); (xe0, [])]) world0)
  /\ feed [[x30; x02]; [x68]; [x69; xe0; x00]] [] world0
     = (Ret [], deliver (map (fun p => (int_of_byte (fst p), snd p))
                             [(x30, [x68; x69]); (xe0, [])]) world0).
Proof.
  apply (encode_decode_round_trip
           [(x30, [x68; x69]); (xe0, [])]
           [[x30; x02]; [x68]; [x69; xe0; x00]] world0 conn0).
  - reflexivity.
  - repeat constructor; vm_compute; discriminate.
  - reflexivity.
Defined.

(** * Further properties of the read loop *)

(** The read loop and the bare feeding of chunks hand over the same packets
    as long as no read comes back empty and the transport stays open. *)
Lemma read_loop_feed chunks :
  forall buf wf wl cf cl,
    _connection wf = Some cf -> _connection wl = Some cl ->
    closing cl = false -> _connected wl = true ->
    Forall (fun ch => ch <> []) chunks ->
    delivered wl = delivered wf ->
    delivered (snd (read_loop_while (script_of chunks) buf wl))
    = delivered (snd (feed chunks buf wf)).
Proof.
  induction chunks as [|chunk chunks IH];
    intros buf wf wl cf cl Hcf Hcl Hopen Hcon Hne Hdel;
    cbn [script_of map read_loop_while feed]; rewrite Hcon; unfold bind.
  - rewrite (read_loop_body_blocked _ _ _ Hcl). cbn [snd ret].
    rewrite <- Hdel. unfold delivered. simpl. rewrite Hcl. reflexivity.
  - fold (script_of chunks). inversion Hne as [|? ? Hch Hne']; subst.
    destruct (read_packet_loop_total
                (S (List.length (buf ++ chunk))) (buf ++ chunk) 0
                (len (buf ++ chunk)))
      as (n & ps & _ & Hrun); try (unfold len; lia).
    rewrite (read_loop_body_data (Conn.mkReadEvent chunk false) buf wl cl n ps
                                 Hcl (or_introl Hch) Hrun).
    unfold _read_packet at 1. rewrite (Hrun _ _ Hcf).
    cbv zeta. cbn [Conn.ev_data Conn.ev_closing]. rewrite Hopen. cbn [orb].
    rewrite orb_false_r.
    destruct (n =? -1).
    + cbn [snd ret]. rewrite (delivered_deliver _ _ _ Hcf).
      unfold delivered at 1. cbn [logger _connection].
      erewrite deliver_attached by reflexivity. simpl.
      unfold delivered in Hdel. rewrite Hcl, Hcf in Hdel.
      unfold delivered. rewrite Hcf, Hdel. reflexivity.
    + eapply IH; auto.
      * apply (deliver_attached _ _ _ Hcf).
      * erewrite deliver_attached by reflexivity. reflexivity.
      * simpl. rewrite Hopen. reflexivity.
      * rewrite (delivered_deliver _ _ _ Hcf). unfold delivered at 1.
        erewrite deliver_attached by reflexivity. simpl.
        unfold delivered in Hdel. rewrite Hcl, Hcf in Hdel.
        unfold delivered. rewrite Hcf, Hdel. reflexivity.
Qed.

(** X7.  For every sequence of bytes, well formed or not, that an open
    transport hands to the read loop in non-empty reads, cut anywhere, the
    loop hands over the packets that a single call of [_read_packet] on the
    whole sequence hands over, in the same order. *)
Theorem read_loop_any_stream chunks w c :
  _connection w = Some c -> closing c = false -> _connected w = true ->
  Forall (fun ch => ch <> []) chunks ->
  delivered (snd (_read_loop (script_of chunks) w))
  = delivered (snd (_read_packet (concat chunks) w)).
Proof.
  intros Hc Hopen Hcon Hne. unfold _read_loop. rewrite Hcon.
  rewrite (read_loop_feed chunks [] w w c c); auto.
  rewrite (feed_any chunks [] w c Hc); [reflexivity|].
  intros w'. reflexivity.
Qed.

Lemma read_loop_any_stream_witness :
  delivered (snd (_read_loop (script_of [[xe0]; [x00; x30; xff]; [x01; x02]])
                             world0))
  = delivered (snd (_read_packet (concat [[xe0]; [x00; x30; xff]; [x01; x02]])
                                 world0)).
Proof.
  apply (read_loop_any_stream [[xe0]; [x00; x30; xff]; [x01; x02]]
                              world0 conn0);
    try reflexivity.
  repeat constructor; discriminate.
Defined.

(** X8.  When the decoder answers the sentinel for the buffer with the bytes
    of a read appended, the loop hands over the packets decoded before the
    malformed length, logs, and ends normally without taking the reads that
    follow.  It does not close the transport, and the gate stays set: the
    protocol still counts as connected. *)
Theorem read_loop_stops_on_sentinel ev rest buf w c :
  _connection w = Some c -> _connected w = true ->
  Conn.ev_data ev <> [] \/ closing c || Conn.ev_closing ev = true ->
  fst (_read_packet (buf ++ Conn.ev_data ev) w) = Ret (-1) ->
  exists w' c',
    read_loop_while (ev :: rest) buf w = (Ret tt, w')
    /\ _connection w' = Some c'
    /\ delivered w' = delivered (snd (_read_packet (buf ++ Conn.ev_data ev) w))
    /\ read_requests c' = read_requests c ++ [max_buff_size]
    /\ close_calls c' = close_calls c
    /\ closing c' = closing c || Conn.ev_closing ev
    /\ _connected w' = true
    /\ _read_loop_future w' = _read_loop_future w
    /\ log w' = log w ++ [(DEBUG, recv_empty)].
Proof.
  intros Hc Hcon Hd Hbad.
  destruct (read_packet_loop_total
              (S (List.length (buf ++ Conn.ev_data ev))) (buf ++ Conn.ev_data ev)
              0 (len (buf ++ Conn.ev_data ev)))
    as (n & ps & _ & Hrun); try (unfold len; lia).
  unfold _read_packet in Hbad at 1. rewrite (Hrun _ _ Hc) in Hbad.
  cbn [fst] in Hbad. injection Hbad as ->.
  cbn [read_loop_while]. rewrite Hcon. unfold bind.
  rewrite (read_loop_body_data ev buf w c (-1) ps Hc Hd Hrun).
  cbv zeta. cbn [Z.eqb orb].
  eexists _, _. split; [reflexivity|].
  cbn [logger _connection _connected _read_loop_future log].
  erewrite deliver_attached by reflexivity.
  split; [reflexivity|]. unfold _read_packet. rewrite (Hrun _ _ Hc).
  cbn [snd]. rewrite (delivered_deliver _ _ _ Hc).
  unfold delivered, deliver. cbn. rewrite Hc.
  repeat split; auto.
Qed.

Lemma read_loop_stops_on_sentinel_witness :
  exists w' c',
    read_loop_while
      [Conn.mkReadEvent [xe0; x00; x30; x80; x80; x80; x80; x01] false;
       Conn.mkReadEvent [xe0; x00] false] [] world0
    = (Ret tt, w')
    /\ _connection w' = Some c'
    /\ delivered w'
       = delivered (snd (_read_packet
                           ([] ++ [xe0; x00; x30; x80; x80; x80; x80; x01])
                           world0))
    /\ read_requests c' = read_requests conn0 ++ [max_buff_size]
    /\ close_calls c' = close_calls conn0
    /\ closing c' = closing conn0 || false
    /\ _connected w' = true
    /\ _read_loop_future w' = _read_loop_future world0
    /\ log w' = log world0 ++ [(DEBUG, recv_empty)].
Proof.
  apply (read_loop_stops_on_sentinel
           (Conn.mkReadEvent [xe0; x00; x30; x80; x80; x80; x80; x01] false)
           [Conn.mkReadEvent [xe0; x00] false] [] world0 conn0).
  - reflexivity.
  - reflexivity.
  - left. discriminate.
  - reflexivity.
Defined.

(** X9.  When the transport reports closing once a read has come back, the
    packets that the bytes of that read complete are still handed over;
    then the loop logs and ends normally, without taking the reads that
    follow and without closing the transport itself. *)
Theorem read_loop_stops_when_closing ev rest buf w c :
  _connection w = Some c -> _connected w = true ->
  closing c || Conn.ev_closing ev = true ->
  exists w' c',
    read_loop_while (ev :: rest) buf w = (Ret tt, w')
    /\ _connection w' = Some c'
    /\ delivered w' = delivered (snd (_read_packet (buf ++ Conn.ev_data ev) w))
    /\ read_requests c' = read_requests c ++ [max_buff_size]
    /\ close_calls c' = close_calls c
    /\ closing c' = true
    /\ log w' = log w ++ [(DEBUG, recv_empty)].
Proof.
  intros Hc Hcon Hcl.
  destruct (read_packet_loop_total
              (S (List.length (buf ++ Conn.ev_data ev))) (buf ++ Conn.ev_data ev)
              0 (len (buf ++ Conn.ev_data ev)))
    as (n & ps & _ & Hrun); try (unfold len; lia).
  cbn [read_loop_while]. rewrite Hcon. unfold bind.
  rewrite (read_loop_body_data ev buf w c n ps Hc (or_intror Hcl) Hrun).
  cbv zeta. rewrite Hcl, orb_true_r.
  eexists _, _. split; [reflexivity|].
  cbn [logger _connection log].
  erewrite deliver_attached by reflexivity.
  split; [reflexivity|]. unfold _read_packet. rewrite (Hrun _ _ Hc).
  cbn [snd]. rewrite (delivered_deliver _ _ _ Hc).
  unfold delivered, deliver. cbn. rewrite Hc.
  repeat split; auto.
Qed.

Lemma read_loop_stops_when_closing_witness :
  exists w' c',
    read_loop_while
      [Conn.mkReadEvent [x05; x68; x65; x6c; x6c; x6f; xe0] true;
       Conn.mkReadEvent [x00] false] [x30] world0
    = (Ret tt, w')
    /\ _connection w' = Some c'
    /\ delivered w'
       = delivered (snd (_read_packet
                           ([x30] ++ [x05; x68; x65; x6c; x6c; x6f; xe0])
                           world0))
    /\ read_requests c' = read_requests conn0 ++ [max_buff_size]
    /\ close_calls c' = close_calls conn0
    /\ closing c' = true
    /\ log w' = log world0 ++ [(DEBUG, recv_empty)].
Proof.
  apply (read_loop_stops_when_closing
           (Conn.mkReadEvent [x05; x68; x65; x6c; x6c; x6f; xe0] true)
           [Conn.mkReadEvent [x00] false] [x30] world0 conn0);
    reflexivity.
Defined.

Lemma received_only_after ev ps w c w' :
  received_only
    (deliver ps (set_conn (Some (Conn.complete_read
                                   ev (Conn.request_read max_buff_size c))) w))
    (mkConnection (closing c || Conn.ev_closing ev) (written c)
                  (packages c ++ ps) (read_requests c ++ [max_buff_size])
                  (close_calls c))
    w' ->
  received_only w c w'.
Proof.
  unfold received_only, deliver. cbn.
  intros (c' & ps' & Hc' & Hp & Hw & Hcc & Hcl & Hg & Hf & Hq & Hqs & Ht).
  exists c', (ps ++ ps'). rewrite app_assoc.
  repeat split; auto.
  intros H. apply Hcl. rewrite H. reflexivity.
Qed.

(** X10.  Whatever the transport answers, a run of the read loop only
    receives: it hands packets to the connection behind those it held,
    writes nothing to the transport, closes it at most once, and leaves the
    gate, the task handle and the queue as they were.  In particular the
    loop that has ended has not cleared the gate. *)
Theorem read_loop_receives_only script :
  forall buf w c,
    _connection w = Some c ->
    received_only w c (snd (read_loop_while script buf w)).
Proof.
  induction script as [|ev rest IH]; intros buf w c Hc; cbn [read_loop_while].
  - destruct (_connected w) eqn:Hcon.
    + unfold bind. rewrite (read_loop_body_blocked _ _ _ Hc). cbn [snd].
      exists (Conn.request_read max_buff_size c), [].
      rewrite app_nil_r. cbn. repeat split; auto.
    + cbn [snd]. exists c, []. rewrite app_nil_r. repeat split; auto.
  - destruct (_connected w) eqn:Hcon.
    2:{ cbn [snd]. exists c, []. rewrite app_nil_r. repeat split; auto. }
    unfold bind.
    destruct (Conn.ev_data ev) as [|b bs] eqn:Hd;
      [destruct (closing c || Conn.ev_closing ev) eqn:Hcl|].
    2:{ rewrite (read_loop_body_reset _ _ _ _ Hc Hd Hcl). cbn [snd ret].
        eexists _, []. rewrite app_nil_r. cbn.
        split; [reflexivity|]. repeat split; auto. }
    all: destruct (read_packet_loop_total
                     (S (List.length (buf ++ Conn.ev_data ev)))
                     (buf ++ Conn.ev_data ev) 0 (len (buf ++ Conn.ev_data ev)))
        as (n & ps & _ & Hrun); try (unfold len; lia).
    all: rewrite (read_loop_body_data ev buf w c n ps Hc)
      by (auto; rewrite Hd; auto; left; discriminate).
    all: cbv zeta.
    all: destruct ((n =? -1) || (closing c || Conn.ev_closing ev)) eqn:Hstop.
    all: try (cbn [snd ret]; eexists _, ps; unfold deliver; cbn;
              split; [reflexivity|]; repeat split; auto;
              intros H; rewrite H; reflexivity).
    all: apply (received_only_after ev ps).
    all: apply IH.
    all: erewrite deliver_attached by reflexivity; reflexivity.
Qed.

Lemma read_loop_receives_only_witness :
  received_only
    world0 conn0
    (snd (read_loop_while
            [Conn.mkReadEvent [xe0; x00; x30] false; Conn.mkReadEvent [] false;
             Conn.mkReadEvent [x00] false] [] world0)).
Proof.
  apply (read_loop_receives_only
           [Conn.mkReadEvent [xe0; x00; x30] false; Conn.mkReadEvent [] false;
            Conn.mkReadEvent [x00] false] [] world0 conn0).
  reflexivity.
Defined.

(** * Further properties of the send side and of the life cycle *)

Section SendSide.
Context {Login Subscription Topic Message Properties : Type}.
Variable build_login : Login -> World -> bytes.
Variable build_subscribe : Subscription -> World -> Z * bytes.
Variable build_unsubscribe : Topic -> World -> Z * bytes.
Variable build_simple : Z -> bytes.
Variable build_publish : Message -> World -> Z * bytes.
Variable build_disconnect : World -> Z -> Properties -> bytes.
Variable build_with_mid : Z -> Z -> bool -> Z -> Z -> bytes.
Variable PINGREQ : Z.
Variable proto_ver : Z.

(** X11.  On a transport that is not closing, every send method writes the
    bytes that its builder gave, once, behind what was written before, and
    changes nothing else; [send_command_with_mid] and [send_auth_package]
    return nothing. *)
Theorem sends_write_built_bytes
        login subscription topic message cmd mid dup reason_code properties
        w c :
  _connection w = Some c -> closing c = false ->
  send_auth_package build_login login w
  = (Ret PyNone, set_conn (Some (Conn.write (build_login login w) c)) w)
  /\ snd (send_subscribe_packet build_subscribe subscription w)
     = set_conn (Some (Conn.write (snd (build_subscribe subscription w)) c)) w
  /\ snd (send_unsubscribe_packet build_unsubscribe topic w)
     = set_conn (Some (Conn.write (snd (build_unsubscribe topic w)) c)) w
  /\ snd (send_simple_command_packet build_simple cmd w)
     = set_conn (Some (Conn.write (build_simple cmd) c)) w
  /\ snd (send_ping_request build_simple PINGREQ w)
     = set_conn (Some (Conn.write (build_simple PINGREQ) c)) w
  /\ snd (send_publish build_publish message w)
     = set_conn (Some (Conn.write (snd (build_publish message w)) c)) w
  /\ snd (send_disconnect build_disconnect reason_code properties w)
     = set_conn
         (Some (Conn.write (build_disconnect w reason_code properties) c)) w
  /\ send_command_with_mid build_with_mid proto_ver cmd mid dup reason_code w
     = (Ret PyNone,
        set_conn
          (Some (Conn.write (build_with_mid cmd mid dup reason_code proto_ver)
                            c)) w).
Proof.
  intros Hc Hcl. unfold send_ping_request.
  unfold send_auth_package, send_subscribe_packet, send_unsubscribe_packet,
    send_simple_command_packet, send_publish, send_disconnect,
    send_command_with_mid, bind, ret.
  cbv beta zeta.
  destruct (build_subscribe subscription w) as [mid1 pkg1].
  destruct (build_unsubscribe topic w) as [mid2 pkg2].
  destruct (build_publish message w) as [mid3 pkg3].
  rewrite !(write_data_open _ _ _ Hc Hcl).
  repeat split.
Qed.

(** X12.  On a transport that reports closing, every send method writes
    nothing and logs one warning, and it returns what it returns otherwise:
    [send_subscribe_packet], [send_unsubscribe_packet] and [send_publish]
    still return the message identifier of a packet that was not sent. *)
Theorem sends_drop_when_closing
        login subscription topic message cmd mid dup reason_code properties
        w c :
  _connection w = Some c -> closing c = true ->
  send_auth_package build_login login w
  = (Ret PyNone, logger WARNING "[TRYING WRITE TO CLOSED SOCKET]" w)
  /\ send_subscribe_packet build_subscribe subscription w
     = (Ret (PyInt (fst (build_subscribe subscription w))),
        logger WARNING "[TRYING WRITE TO CLOSED SOCKET]" w)
  /\ send_unsubscribe_packet build_unsubscribe topic w
     = (Ret (PyInt (fst (build_unsubscribe topic w))),
        logger WARNING "[TRYING WRITE TO CLOSED SOCKET]" w)
  /\ send_simple_command_packet build_simple cmd w
     = (Ret PyNone, logger WARNING "[TRYING WRITE TO CLOSED SOCKET]" w)
  /\ send_ping_request build_simple PINGREQ w
     = (Ret PyNone, logger WARNING "[TRYING WRITE TO CLOSED SOCKET]" w)
  /\ send_publish build_publish message w
     = (Ret (PyPair (PyInt (fst (build_publish message w)))
                    (PyBytes (snd (build_publish message w)))),
        logger WARNING "[TRYING WRITE TO CLOSED SOCKET]" w)
  /\ send_disconnect build_disconnect reason_code properties w
     = (Ret (PyBytes (build_disconnect w reason_code properties)),
        logger WARNING "[TRYING WRITE TO CLOSED SOCKET]" w)
  /\ send_command_with_mid build_with_mid proto_ver cmd mid dup reason_code w
     = (Ret PyNone, logger WARNING "[TRYING WRITE TO CLOSED SOCKET]" w).
Proof.
  intros Hc Hcl. unfold send_ping_request.
  unfold send_auth_package, send_subscribe_packet, send_unsubscribe_packet,
    send_simple_command_packet, send_publish, send_disconnect,
    send_command_with_mid, bind, ret.
  cbv beta zeta.
  destruct (build_subscribe subscription w) as [mid1 pkg1].
  destruct (build_unsubscribe topic w) as [mid2 pkg2].
  destruct (build_publish message w) as [mid3 pkg3].
  rewrite !(write_data_closing _ _ _ Hc Hcl).
  repeat split.
Qed.

End SendSide.

Lemma sends_write_built_bytes_witness :
  snd (send_subscribe_packet (fun (_ : unit) _ => (1, [x82; x00])) tt world0)
  = set_conn (Some (Conn.write [x82; x00] conn0)) world0.
Proof.
  exact (proj1 (proj2
    (sends_write_built_bytes
       (fun (_ : unit) _ => [x10; x00]) (fun (_ : unit) _ => (1, [x82; x00]))
       (fun (_ : unit) _ => (2, [xa2; x00])) (fun _ => [xc0; x00])
       (fun (_ : unit) _ => (3, [x32; x00]))
       (fun _ _ (_ : unit) => [xe0; x00]) (fun _ _ _ _ _ => [x40; x02])
       192 5 tt tt tt tt 192 7 false 0 tt world0 conn0 eq_refl eq_refl))).
Defined.

Lemma sends_drop_when_closing_witness :
  send_subscribe_packet (fun (_ : unit) _ => (1, [x82; x00])) tt closing_world
  = (Ret (PyInt 1),
     logger WARNING "[TRYING WRITE TO CLOSED SOCKET]" closing_world).
Proof.
  exact (proj1 (proj2
    (sends_drop_when_closing
       (fun (_ : unit) _ => [x10; x00]) (fun (_ : unit) _ => (1, [x82; x00]))
       (fun (_ : unit) _ => (2, [xa2; x00])) (fun _ => [xc0; x00])
       (fun (_ : unit) _ => (3, [x32; x00]))
       (fun _ _ (_ : unit) => [xe0; x00]) (fun _ _ _ _ _ => [x40; x02])
       192 5 tt tt tt tt 192 7 false 0 tt closing_world (Conn.close conn0)
       eq_refl eq_refl))).
Defined.

(** One complete frame at the head of the buffer while the protocol holds no
    connection: handing the packet over fails. *)
Lemma read_packet_frame_unattached f rest w :
  well_formed f = true -> _connection w = None ->
  _read_packet (encode_frame f ++ rest) w = (Raise AttributeError, w).
Proof.
  intros Hwf Hc. destruct (well_formed_inv _ Hwf) as (Hvar & Hval & Hl1 & Hl4).
  pose proof (len_encode_frame f) as Hlf.
  destruct f as [cmd lb payload]. cbn [f_command f_length f_payload] in *.
  assert (1 <= len lb) by (unfold len; lia).
  pose proof (len_nonneg payload). pose proof (len_nonneg rest).
  unfold _read_packet.
  remember (encode_frame (mkFrame cmd lb payload) ++ rest) as data eqn:Hdata.
  assert (Hlen : len data = 1 + len lb + len payload + len rest)
    by (rewrite Hdata, len_app, Hlf; lia).
  assert (Hsk1 : skipn (Z.to_nat (0 + 1)) data = lb ++ (payload ++ rest)).
  { rewrite Hdata. unfold encode_frame. simpl. rewrite app_assoc. reflexivity. }
  assert (Hsk0 : skipn (Z.to_nat 0) data = cmd :: (lb ++ payload) ++ rest)
    by (rewrite Hdata; reflexivity).
  assert (Hsk2 : skipn (Z.to_nat (0 + (1 + len lb))) data = payload ++ rest).
  { rewrite Hdata. unfold encode_frame.
    replace (Z.to_nat (0 + (1 + len lb))) with (S (List.length lb))
      by (unfold len; lia).
    simpl. rewrite <- app_assoc, skipn_app, skipn_all.
    replace (List.length lb - List.length lb)%nat with 0%nat by lia.
    reflexivity. }
  cbn [read_packet_loop].
  replace (len data <? 2) with false by (zcmp; auto; lia).
  rewrite (read_header_complete _ _ Hvar header_fuel data (len data) 0 1 0
                                (payload ++ rest));
    try lia; auto; [|unfold header_fuel; lia].
  rewrite Hval.
  replace (1 + len lb + (0 + len payload) >? len data) with false
    by (zcmp; auto; lia).
  destruct (skipn_cons_subscript data 0 _ _ ltac:(lia) Hsk0) as (Hcmd & _ & _).
  rewrite Hcmd.
  replace (0 + (1 + len lb) + (0 + len payload))
    with (0 + (1 + len lb) + len payload) by lia.
  rewrite (slice_of_skipn data (0 + (1 + len lb)) payload rest) by (auto; lia).
  unfold on_connection. rewrite Hc. reflexivity.
Qed.

(** X13.  While [self._connection] is still [None]: [write_data] and [read]
    raise [AttributeError] and change nothing; the read loop, which handles
    the reset condition only, lets that exception through; [_read_packet]
    raises it as soon as the buffer starts with a complete packet, and
    answers 0 when it holds none; [connection_lost] raises it after it has
    cleared the gate and logged, so that the task is not cancelled and the
    queue is not replaced. *)
Theorem unconnected_protocol_raises data n ev script buf f rest part exc w :
  _connection w = None ->
  well_formed f = true -> proper_prefix part (encode_frame f) ->
  BaseMQTTProtocol.write_data data w = (Raise AttributeError, w)
  /\ BaseMQTTProtocol.read n ev w = (Raise AttributeError, w)
  /\ (_connected w = true ->
      read_loop_while script buf w = (Raise AttributeError, w))
  /\ _read_packet (encode_frame f ++ rest) w = (Raise AttributeError, w)
  /\ _read_packet part w = (Ret 0, w)
  /\ exists w',
      MQTTProtocol.connection_lost exc w = (Raise AttributeError, w')
      /\ _connected w' = false
      /\ _read_loop_future w' = _read_loop_future w
      /\ tasks w' = tasks w
      /\ _queue w' = _queue w
      /\ queues w' = queues w
      /\ List.length (log w') = S (List.length (log w)).
Proof.
  intros Hc Hwf Hpart.
  assert (Hread : forall m e,
             BaseMQTTProtocol.read m e w = (Raise AttributeError, w))
    by (intros m e; unfold BaseMQTTProtocol.read, bind, on_connection;
        rewrite Hc; reflexivity).
  split.
  { unfold BaseMQTTProtocol.write_data, bind, connection_is_closing.
    rewrite Hc. reflexivity. }
  split; [apply Hread|]. split.
  { intros Hcon.
    assert (Hbody : forall e, read_loop_body e buf w = (Raise AttributeError, w))
      by (intros e; unfold read_loop_body, try_except_reset, bind;
          rewrite Hread; reflexivity).
    destruct script as [|e script]; cbn [read_loop_while]; rewrite Hcon;
      unfold bind; rewrite Hbody; reflexivity. }
  split; [apply (read_packet_frame_unattached _ _ _ Hwf Hc)|].
  split; [apply (read_packet_partial _ _ _ Hwf Hpart)|].
  clear Hread. destruct w as [conn connected q fut qs ts lg].
  simpl in Hc. subst conn.
  unfold MQTTProtocol.connection_lost, BaseMQTTProtocol.connection_lost,
    bind, on_connection, do_log.
  destruct exc as [e|]; simpl; eexists; (split; [reflexivity|]); simpl;
    rewrite length_app; simpl; repeat split; lia.
Qed.

Lemma unconnected_protocol_raises_witness :
  BaseMQTTProtocol.write_data [xc0; x00] fresh_world
  = (Raise AttributeError, fresh_world)
  /\ BaseMQTTProtocol.read 65536 (Some (Conn.mkReadEvent [xe0] false)) fresh_world
     = (Raise AttributeError, fresh_world)
  /\ (_connected fresh_world = true ->
      read_loop_while [] [] fresh_world = (Raise AttributeError, fresh_world))
  /\ _read_packet (encode_frame hello_frame ++ [xe0]) fresh_world
     = (Raise AttributeError, fresh_world)
  /\ _read_packet [x30; x05; x68] fresh_world = (Ret 0, fresh_world)
  /\ exists w',
      MQTTProtocol.connection_lost None fresh_world = (Raise AttributeError, w')
      /\ _connected w' = false
      /\ _read_loop_future w' = _read_loop_future fresh_world
      /\ tasks w' = tasks fresh_world
      /\ _queue w' = _queue fresh_world
      /\ queues w' = queues fresh_world
      /\ List.length (log w') = S (List.length (log fresh_world)).
Proof.
  apply (unconnected_protocol_raises
           [xc0; x00] 65536 (Some (Conn.mkReadEvent [xe0] false)) [] []
           hello_frame [xe0] [x30; x05; x68] None fresh_world).
  - reflexivity.
  - reflexivity.
  - exists [x65; x6c; x6c; x6f]. split; [discriminate | reflexivity].
Defined.

(** X14.  Connecting, losing the connection and connecting again, from any
    state: all three calls return; the task started for the first
    connection is cancelled and a new pending one is held; the disconnect
    packet went to the connection that was lost, and the new connection is
    held as it was given; the gate is set, cleared and set again; one new,
    empty queue was made. *)
Theorem reconnect_cycle c1 exc c2 w :
  exists w1 w2 w3,
    MQTTProtocol.connection_made c1 w = (Ret tt, w1)
    /\ MQTTProtocol.connection_lost exc w1 = (Ret tt, w2)
    /\ MQTTProtocol.connection_made c2 w2 = (Ret tt, w3)
    /\ _connected w1 = true /\ _connected w2 = false /\ _connected w3 = true
    /\ _connection w2 = Some (Conn.put_package (MQTTCommands.DISCONNECT, []) c1)
    /\ _connection w3 = Some c2
    /\ tasks w3 = tasks w ++ [TaskCancelled; TaskPending]
    /\ _read_loop_future w3 = Some (S (List.length (tasks w)))
    /\ queues w3 = queues w ++ [[]]
    /\ _queue w3 = List.length (queues w).
Proof.
  eexists _, _, _.
  split; [apply connection_made_world|].
  split; [apply (connection_lost_world exc _ c1); reflexivity|].
  split; [apply connection_made_world|].
  cbn [_connected _connection tasks _read_loop_future queues _queue].
  rewrite update_nth_app_length, <- app_assoc, length_app.
  cbn [cancel app List.length].
  repeat split; auto. f_equal. lia.
Qed.

(** X15.  Connecting twice without a loss in between: the second call
    replaces the task handle without cancelling the first task, so a later
    [connection_lost] cancels the second task only and the first stays
    pending with no handle left to it. *)
Theorem second_connection_made_leaks_task c1 c2 exc w :
  exists w1 w2 w3,
    MQTTProtocol.connection_made c1 w = (Ret tt, w1)
    /\ MQTTProtocol.connection_made c2 w1 = (Ret tt, w2)
    /\ MQTTProtocol.connection_lost exc w2 = (Ret tt, w3)
    /\ _connection w2 = Some c2
    /\ tasks w2 = tasks w ++ [TaskPending; TaskPending]
    /\ _read_loop_future w2 = Some (S (List.length (tasks w)))
    /\ tasks w3 = tasks w ++ [TaskPending; TaskCancelled]
    /\ _read_loop_future w3 = None.
Proof.
  eexists _, _, _.
  split; [apply connection_made_world|].
  split; [apply connection_made_world|].
  split; [apply (connection_lost_world exc _ c2); reflexivity|].
  cbn [_connected _connection tasks _read_loop_future queues _queue].
  rewrite update_nth_app_length, <- !app_assoc, length_app.
  cbn [cancel app List.length].
  repeat split; auto. f_equal. lia.
Qed.

(** X16.  [connection_lost] called twice in a row: both calls return, each
    hands one disconnect packet to the connection and makes one new queue;
    the second finds no task handle and cancels nothing. *)
Theorem connection_lost_twice exc1 exc2 w c :
  _connection w = Some c ->
  exists w1 w2,
    MQTTProtocol.connection_lost exc1 w = (Ret tt, w1)
    /\ MQTTProtocol.connection_lost exc2 w1 = (Ret tt, w2)
    /\ delivered w2
       = delivered w
         ++ [(MQTTCommands.DISCONNECT, []); (MQTTCommands.DISCONNECT, [])]
    /\ tasks w2 = tasks w1
    /\ queues w2 = queues w ++ [[]; []]
    /\ _queue w2 = S (List.length (queues w))
    /\ _connected w2 = false.
Proof.
  intros Hc. eexists _, _.
  split; [apply (connection_lost_world exc1 _ c Hc)|].
  split; [eapply connection_lost_world; reflexivity|].
  unfold delivered. rewrite Hc.
  cbn [_connected _connection tasks _read_loop_future queues _queue
       Conn.put_package packages].
  rewrite <- !app_assoc, length_app. cbn [app List.length].
  repeat split; auto. lia.
Qed.

Lemma connection_lost_twice_witness :
  exists w1 w2,
    MQTTProtocol.connection_lost None world0 = (Ret tt, w1)
    /\ MQTTProtocol.connection_lost (Some ConnectionResetError) w1 = (Ret tt, w2)
    /\ delivered w2
       = delivered world0
         ++ [(MQTTCommands.DISCONNECT, []); (MQTTCommands.DISCONNECT, [])]
    /\ tasks w2 = tasks w1
    /\ queues w2 = queues world0 ++ [[]; []]
    /\ _queue w2 = S (List.length (queues world0))
    /\ _connected w2 = false.
Proof.
  apply (connection_lost_twice None (Some ConnectionResetError) world0 conn0).
  reflexivity.
Defined.
